(** * Flask JWKS server: a shallow embedding of [app.py]

    The module-level dictionary [keys], the two endpoints, the two
    method-not-allowed handlers and the helper [base64url_encode] are
    translated into Rocq functions.  Wall-clock reads, key generation, UUID
    generation and RS256 signing are effects of the environment: they are
    modelled by an explicit environment record, and the handlers thread the
    program state (the dictionary and the number of reads made so far)
    through a small state-and-exception monad. *)

From Stdlib Require Import ZArith List String Ascii Bool Lia.
Local Open Scope string_scope.
Import ListNotations.
Local Open Scope list_scope.
Local Open Scope Z_scope.

(* ===================================================================== *)
(** * Part I: definitions                                                 *)
(* ===================================================================== *)

(** ** Exceptions and results *)

(** The Python exceptions that the modelled code can raise. *)
Inductive exn : Type :=
| OverflowError                (* int.to_bytes: negative or too large *)
| KeyError (k : string)        (* dict lookup / del of a missing key *)
| EncodeError (msg : string).  (* any failure inside jwt.encode *)

Inductive result (A : Type) : Type :=
| Ok (a : A)
| Raise (e : exn).
Arguments Ok {A} a.
Arguments Raise {A} e.

(** ** Python integers and bytes *)

(** A byte is an integer in [0, 256); [bytes] is a list of them. *)
Definition is_byte (b : Z) : Prop := 0 <= b < 256.

(** [int.bit_length()]: number of bits of the absolute value, 0 for 0. *)
Definition bit_length (value : Z) : Z :=
  if value =? 0 then 0 else Z.log2 (Z.abs value) + 1.

(** The [length] low-order base-256 digits of [value], most significant
    first. *)
Fixpoint big_endian (length : nat) (value : Z) : list Z :=
  match length with
  | O => []
  | S l => big_endian l (value / 256) ++ [value mod 256]
  end.

(** [value.to_bytes(length, 'big')] (unsigned): [OverflowError] for a
    negative integer and for one that does not fit in [length] bytes. *)
Definition to_bytes (value length : Z) : result (list Z) :=
  if value <? 0 then Raise OverflowError
  else if 256 ^ length <=? value then Raise OverflowError
  else Ok (big_endian (Z.to_nat length) value).

(** [int.from_bytes(bs, 'big')], the reader's side of the encoding. *)
Definition from_bytes (bs : list Z) : Z :=
  fold_left (fun acc b => acc * 256 + b) bs 0.

(** ** The [base64] module *)

Definition b64_alphabet : list ascii :=
  list_ascii_of_string
    "ABCDEFGHIJKLMNOPQRSTUVWXYZabcdefghijklmnopqrstuvwxyz0123456789+/".

Definition pad_char : ascii := "="%char.

(** The character of a 6-bit group in the standard alphabet. *)
Definition b64_char (sextet : Z) : ascii :=
  nth (Z.to_nat sextet) b64_alphabet pad_char.

(** [base64.b64encode]: every three bytes form a 24-bit group that is cut
    into four 6-bit groups; a final group of one or two bytes is completed
    with zero bits and the output with [=] up to four characters. *)
Fixpoint b64encode (s : list Z) : list ascii :=
  match s with
  | [] => []
  | [a] =>
      let g := a * 65536 in
      [b64_char (g / 262144); b64_char ((g / 4096) mod 64);
       pad_char; pad_char]
  | [a; b] =>
      let g := a * 65536 + b * 256 in
      [b64_char (g / 262144); b64_char ((g / 4096) mod 64);
       b64_char ((g / 64) mod 64); pad_char]
  | a :: b :: c :: rest =>
      let g := a * 65536 + b * 256 + c in
      b64_char (g / 262144) :: b64_char ((g / 4096) mod 64) ::
      b64_char ((g / 64) mod 64) :: b64_char (g mod 64) :: b64encode rest
  end.

(** [bytes.translate(bytes.maketrans(b'+/', b'-_'))]. *)
Definition urlsafe_translation (c : ascii) : ascii :=
  if Ascii.eqb c "+"%char then "-"%char
  else if Ascii.eqb c "/"%char then "_"%char
  else c.

(** [base64.urlsafe_b64encode]. *)
Definition urlsafe_b64encode (s : list Z) : list ascii :=
  map urlsafe_translation (b64encode s).

(** [bytes.rstrip(chars)] for a single character: drops the longest suffix
    made of that character. *)
Fixpoint rstrip (c : ascii) (s : list ascii) : list ascii :=
  match s with
  | [] => []
  | x :: r =>
      match rstrip c r with
      | [] => if Ascii.eqb x c then [] else [x]
      | r' => x :: r'
      end
  end.

(** [bytes.decode('utf-8')] on ASCII bytes. *)
Definition decode_utf8 (s : list ascii) : string := string_of_list_ascii s.

(** [base64url_encode] of [app.py]. *)
Definition base64url_encode (value : Z) : result string :=
  match to_bytes value ((bit_length value + 7) / 8) with
  | Raise e => Raise e
  | Ok bytes_value =>
      Ok (decode_utf8 (rstrip pad_char (urlsafe_b64encode bytes_value)))
  end.

(** *** The reader's side: base64url decoding without padding

    A relying party that fetches the key set decodes [n] and [e] with the
    inverse transformation (RFC 4648, section 5, padding omitted).  It is not
    part of [app.py]; it is what the round-trip property is stated against.
    Its alphabet is the one of the RFC, written out: it owes nothing to the
    encoder's tables. *)

Definition urlsafe_alphabet : list ascii :=
  list_ascii_of_string
    "ABCDEFGHIJKLMNOPQRSTUVWXYZabcdefghijklmnopqrstuvwxyz0123456789-_".

Fixpoint index_of (c : ascii) (l : list ascii) : option Z :=
  match l with
  | [] => None
  | x :: r =>
      if Ascii.eqb c x then Some 0
      else match index_of c r with
           | Some i => Some (i + 1)
           | None => None
           end
  end.

Fixpoint sextets_of (s : list ascii) : option (list Z) :=
  match s with
  | [] => Some []
  | c :: r =>
      match index_of c urlsafe_alphabet, sextets_of r with
      | Some i, Some l => Some (i :: l)
      | _, _ => None
      end
  end.

Fixpoint bytes_of_sextets (l : list Z) : option (list Z) :=
  match l with
  | [] => Some []
  | [_] => None
  | [p; q] => Some [(p * 64 + q) / 16]
  | [p; q; r] => Some [(p * 64 + q) / 16; ((q * 64 + r) / 4) mod 256]
  | p :: q :: r :: t :: rest =>
      match bytes_of_sextets rest with
      | Some bs =>
          Some ((p * 64 + q) / 16 :: ((q * 64 + r) / 4) mod 256 ::
                (r * 64 + t) mod 256 :: bs)
      | None => None
      end
  end.

Definition base64url_decode (s : string) : option (list Z) :=
  match sextets_of (list_ascii_of_string s) with
  | Some l => bytes_of_sextets l
  | None => None
  end.

(** The integer published under a base64url string. *)
Definition decode_int (s : string) : option Z :=
  option_map from_bytes (base64url_decode s).

(** Characters allowed in a published component. *)
Definition urlsafe_char (c : ascii) : bool :=
  let n := nat_of_ascii c in
  ((65 <=? n) && (n <=? 90) || (97 <=? n) && (n <=? 122) ||
   (48 <=? n) && (n <=? 57) || (n =? 45) || (n =? 95))%nat.

(** The 6-bit groups and the number of padding characters that [b64encode]
    produces; used to reason about it. *)
Fixpoint b64_sextets (s : list Z) : list Z :=
  match s with
  | [] => []
  | [a] => let g := a * 65536 in [g / 262144; (g / 4096) mod 64]
  | [a; b] =>
      let g := a * 65536 + b * 256 in
      [g / 262144; (g / 4096) mod 64; (g / 64) mod 64]
  | a :: b :: c :: rest =>
      let g := a * 65536 + b * 256 + c in
      g / 262144 :: (g / 4096) mod 64 :: (g / 64) mod 64 :: g mod 64 ::
      b64_sextets rest
  end.

Fixpoint b64_padding (s : list Z) : nat :=
  match s with
  | [] => 0
  | [_] => 2
  | [_; _] => 1
  | _ :: _ :: _ :: rest => b64_padding rest
  end.

Definition is_sextet (x : Z) : Prop := 0 <= x < 64.

(** ** Dates and durations

    A [datetime] is its number of microseconds since the epoch (the
    resolution of Python's [datetime]); a [timedelta] is a number of
    microseconds. *)

Definition timedelta_hours (h : Z) : Z := h * 3600 * 1000000.
Definition timedelta_minutes (m : Z) : Z := m * 60 * 1000000.

(** [timegm(dt.utctimetuple())]: whole seconds since the epoch, the
    microseconds dropped.  PyJWT applies it to datetime claims. *)
Definition timegm (dt : Z) : Z := dt / 1000000.

(** ** Keys *)

(** [public_key.public_numbers()]: modulus and exponent. *)
Record RSAPublicKey : Type := { pub_n : Z; pub_e : Z }.

Record RSAPrivateKey : Type := { rsa_public : RSAPublicKey; rsa_d : Z }.

(** One value of the dictionary [keys]. *)
Record KeyEntry : Type := {
  private_key : RSAPrivateKey;
  public_key : RSAPublicKey;
  expiry : Z
}.

(** ** Python dictionaries

    A [dict] keeps its entries in insertion order, one entry per key. *)

Definition dict (V : Type) : Type := list (string * V).

Section Dict.
Context {V : Type}.

(** [d[k]], [None] standing for [KeyError]. *)
Fixpoint dict_get (k : string) (d : dict V) : option V :=
  match d with
  | [] => None
  | (k', v) :: r => if String.eqb k k' then Some v else dict_get k r
  end.

(** [k in d]. *)
Definition dict_contains (k : string) (d : dict V) : bool :=
  existsb (fun kv => String.eqb k (fst kv)) d.

(** [d[k] = v]: an existing entry keeps its place and takes the new
    value, a new key is appended. *)
Fixpoint dict_set (k : string) (v : V) (d : dict V) : dict V :=
  match d with
  | [] => [(k, v)]
  | (k', v') :: r =>
      if String.eqb k k' then (k', v) :: r else (k', v') :: dict_set k v r
  end.

(** [del d[k]], [None] standing for [KeyError]. *)
Fixpoint dict_del (k : string) (d : dict V) : option (dict V) :=
  match d with
  | [] => None
  | (k', v') :: r =>
      if String.eqb k k' then Some r
      else match dict_del k r with
           | Some r' => Some ((k', v') :: r')
           | None => None
           end
  end.

Definition dict_keys (d : dict V) : list string := map fst d.
End Dict.

(** ** Tokens *)

(** Values of the claims handed to [jwt.encode]. *)
Inductive pyvalue : Type :=
| PStr (s : string)
| PInt (i : Z)
| PDatetime (dt : Z).

(** What [jwt.decode(token, options={"verify_signature": False})] and
    [jwt.get_unverified_header(token)] read back from a compact token: the
    header, the claims, and the signature part. *)
Record JWT : Type := {
  jwt_header : dict string;
  jwt_claims : dict pyvalue;
  jwt_signature : string
}.

(** ** Responses *)

(** One element of the published key set. *)
Record JWK : Type := {
  jwk_kty : string;
  jwk_use : string;
  jwk_kid : string;
  jwk_n : string;
  jwk_e : string;
  jwk_alg : string
}.

Inductive Body : Type :=
| JsonKeys (keys : list JWK)    (* jsonify(keys=...)  : {"keys": [...]}  *)
| JsonToken (token : JWT)       (* jsonify(token=...) : {"token": "..."} *)
| JsonError (error : string)    (* jsonify(error=...) : {"error": "..."} *)
| FrameworkPage                 (* an error page produced by Flask itself *)
| EmptyBody.

Record Response : Type := { status : Z; body : Body }.

(** ** Environment and program state *)

(** The outside world: successive readings of [datetime.now(UTC)], in
    microseconds; the key pairs returned by successive calls of
    [rsa.generate_private_key]; the strings of successive [uuid.uuid4()];
    and the RS256 signature of a header and claims under a key, which may
    fail. *)
Record Env : Type := {
  clock : nat -> Z;
  rsa_generate_private_key : Z -> Z -> nat -> RSAPrivateKey;
  uuid4 : nat -> string;
  rs256_sign : RSAPrivateKey -> dict string -> dict pyvalue -> result string
}.

(** The module-level dictionary [keys], and how many times the clock, the
    key generator and the UUID generator have been used. *)
Record State : Type := {
  keys : dict KeyEntry;
  clock_reads : nat;
  rsa_draws : nat;
  uuid_draws : nat
}.

Definition with_keys (d : dict KeyEntry) (s : State) : State :=
  {| keys := d; clock_reads := clock_reads s;
     rsa_draws := rsa_draws s; uuid_draws := uuid_draws s |}.

Definition ticks (n : nat) (s : State) : State :=
  {| keys := keys s; clock_reads := n + clock_reads s;
     rsa_draws := rsa_draws s; uuid_draws := uuid_draws s |}.

Definition tick (s : State) : State := ticks 1 s.

Definition rsa_drawn (s : State) : State :=
  {| keys := keys s; clock_reads := clock_reads s;
     rsa_draws := S (rsa_draws s); uuid_draws := uuid_draws s |}.

Definition uuid_drawn (s : State) : State :=
  {| keys := keys s; clock_reads := clock_reads s;
     rsa_draws := rsa_draws s; uuid_draws := S (uuid_draws s) |}.

(** ** The monad of the handlers: state, and exceptions that keep it *)

Definition M (A : Type) : Type := State -> result A * State.

Definition ret {A : Type} (a : A) : M A := fun s => (Ok a, s).

Definition bind {A B : Type} (m : M A) (f : A -> M B) : M B :=
  fun s => match m s with
           | (Ok a, s') => f a s'
           | (Raise e, s') => (Raise e, s')
           end.

Definition raise {A : Type} (e : exn) : M A := fun s => (Raise e, s).

Definition try_except {A : Type} (m : M A) (handler : exn -> M A) : M A :=
  fun s => match m s with
           | (Ok a, s') => (Ok a, s')
           | (Raise e, s') => handler e s'
           end.

Definition lift {A : Type} (r : result A) : M A := fun s => (r, s).

Notation "x <- m ;; k" := (bind m (fun x => k))
  (at level 61, m at next level, right associativity).
Notation "m ;;; k" := (bind m (fun _ => k))
  (at level 61, right associativity).

Definition get_keys : M (dict KeyEntry) := fun s => (Ok (keys s), s).

Definition put_keys (d : dict KeyEntry) : M unit :=
  fun s => (Ok tt, with_keys d s).

(** [keys[kid]]. *)
Definition keys_getitem (kid : string) : M KeyEntry :=
  d <- get_keys ;;
  match dict_get kid d with
  | Some v => ret v
  | None => raise (KeyError kid)
  end.

(** [keys[kid] = entry]. *)
Definition keys_setitem (kid : string) (entry : KeyEntry) : M unit :=
  d <- get_keys ;; put_keys (dict_set kid entry d).

(** [del keys[kid]]. *)
Definition keys_delitem (kid : string) : M unit :=
  d <- get_keys ;;
  match dict_del kid d with
  | Some d' => put_keys d'
  | None => raise (KeyError kid)
  end.

(** [for x in xs: body(x)]. *)
Fixpoint for_each {A : Type} (xs : list A) (body : A -> M unit) : M unit :=
  match xs with
  | [] => ret tt
  | x :: r => body x ;;; for_each r body
  end.

(** [[f(x) for x in xs]]. *)
Fixpoint comprehension {A B : Type} (xs : list A) (f : A -> M B) : M (list B) :=
  match xs with
  | [] => ret []
  | x :: r => y <- f x ;; ys <- comprehension r f ;; ret (y :: ys)
  end.

(** [repr(s)] of a string: between single quotes, or between double quotes
    when the string has a single quote and no double quote; the quote in
    use and the backslash are escaped, control characters are written
    [\t], [\n], [\r] or [\xNN].  Bytes above 127 are the UTF-8 form of
    printable characters, which [repr] leaves as they are. *)
Definition squote : ascii := "'"%char.
Definition dquote : ascii := ascii_of_nat 34.
Definition backslash : ascii := ascii_of_nat 92.

Definition hex_digit (n : nat) : ascii :=
  nth n (list_ascii_of_string "0123456789abcdef") "0"%char.

Definition repr_char (quote c : ascii) : list ascii :=
  let n := nat_of_ascii c in
  if Ascii.eqb c quote || Ascii.eqb c backslash then [backslash; c]
  else if (n =? 9)%nat then [backslash; "t"%char]
  else if (n =? 10)%nat then [backslash; "n"%char]
  else if (n =? 13)%nat then [backslash; "r"%char]
  else if ((n <? 32) || (n =? 127))%nat
       then [backslash; "x"%char; hex_digit (n / 16); hex_digit (n mod 16)]
       else [c].

Definition py_repr (s : string) : string :=
  let cs := list_ascii_of_string s in
  let quote :=
    if existsb (Ascii.eqb squote) cs && negb (existsb (Ascii.eqb dquote) cs)
    then dquote else squote in
  string_of_list_ascii (quote :: flat_map (repr_char quote) cs ++ [quote]).

(** [str(e)] for an exception; [str(KeyError(k))] is [repr(k)]. *)
Definition exn_str (e : exn) : string :=
  match e with
  | OverflowError => "can't convert negative int to unsigned"
  | KeyError k => py_repr k
  | EncodeError msg => msg
  end.

Section App.
Variable env : Env.

(** [datetime.now(UTC)]. *)
Definition datetime_now : M Z :=
  fun s => (Ok (clock env (clock_reads s)), tick s).

(** [rsa.generate_private_key(public_exponent, key_size, backend)]. *)
Definition generate_private_key (public_exponent key_size : Z)
  : M RSAPrivateKey :=
  fun s => (Ok (rsa_generate_private_key env public_exponent key_size
                  (rsa_draws s)),
            rsa_drawn s).

(** [str(uuid.uuid4())]. *)
Definition str_uuid4 : M string :=
  fun s => (Ok (uuid4 env (uuid_draws s)), uuid_drawn s).

(** [jwt.encode(payload, key, algorithm, headers)]: datetime values of
    the registered time claims become whole seconds, the header is
    [typ] and [alg] updated with [headers], and the two are signed. *)
Definition jwt_time_claim (kv : string * pyvalue) : string * pyvalue :=
  match kv with
  | (name, PDatetime dt) =>
      if String.eqb name "exp" || String.eqb name "iat" ||
         String.eqb name "nbf"
      then (name, PInt (timegm dt)) else kv
  | _ => kv
  end.

Definition jwt_encode (payload : dict pyvalue) (key : RSAPrivateKey)
    (algorithm : string) (headers : dict string) : M JWT :=
  let claims := map jwt_time_claim payload in
  let header :=
    fold_left (fun h kv => dict_set (fst kv) (snd kv) h) headers
              [("typ", "JWT"); ("alg", algorithm)] in
  signature <- lift (rs256_sign env key header claims) ;;
  ret {| jwt_header := header; jwt_claims := claims;
         jwt_signature := signature |}.

(** *** [generate_key] *)
Definition generate_key (expired : bool) : M string :=
  private_key <- generate_private_key 65537 2048 ;;
  kid <- str_uuid4 ;;
  t <- datetime_now ;;
  let expiry := t + timedelta_hours 1 in
  expiry <- (if expired
             then t' <- datetime_now ;; ret (t' - timedelta_minutes 5)
             else ret expiry) ;;
  keys_setitem kid {| private_key := private_key;
                      public_key := rsa_public private_key;
                      expiry := expiry |} ;;;
  ret kid.

(** *** [jwks_endpoint] *)
Definition jwk_of (item : string * KeyEntry) : M JWK :=
  let (kid, key) := item in
  n <- lift (base64url_encode (pub_n (public_key key))) ;;
  e <- lift (base64url_encode (pub_e (public_key key))) ;;
  ret {| jwk_kty := "RSA"; jwk_use := "sig"; jwk_kid := kid;
         jwk_n := n; jwk_e := e; jwk_alg := "RS256" |}.

Definition jwks_endpoint : M Response :=
  now <- datetime_now ;;
  items <- get_keys ;;
  let expired_keys :=
    map fst (filter (fun item => expiry (snd item) <? now) items) in
  for_each expired_keys keys_delitem ;;;
  items <- get_keys ;;
  valid_keys <- comprehension items jwk_of ;;
  ret {| status := 200; body := JsonKeys valid_keys |}.

(** *** [auth_endpoint] *)

(** [next((k for k, v in items if v['expiry'] < datetime.now(UTC)), None)]:
    the clock is read once for every entry that is examined. *)
Fixpoint next_expired (items : dict KeyEntry) : M (option string) :=
  match items with
  | [] => ret None
  | (k, v) :: r =>
      now <- datetime_now ;;
      if expiry v <? now then ret (Some k) else next_expired r
  end.

(** [if not kid] holds for [None] and for the empty string. *)
Definition auth_endpoint (args : dict string) : M Response :=
  let expired := dict_contains "expired" args in
  kid <- (if expired
          then items <- get_keys ;; next_expired items
          else ret None) ;;
  kid <- (match kid with
          | Some k => if String.eqb k EmptyString then generate_key expired else ret k
          | None => generate_key expired
          end) ;;
  entry <- keys_getitem kid ;;
  let private_pem := private_key entry in
  t <- datetime_now ;;
  let exp_time := t + timedelta_minutes 5 in
  exp_time <- (if expired
               then t' <- datetime_now ;; ret (t' - timedelta_minutes 5)
               else ret exp_time) ;;
  iat <- datetime_now ;;
  let payload := [("sub", PStr "example_user");
                  ("iat", PDatetime iat);
                  ("exp", PDatetime exp_time)] in
  try_except
    (token <- jwt_encode payload private_pem "RS256" [("kid", kid)] ;;
     ret {| status := 201; body := JsonToken token |})
    (fun e =>
       ret {| status := 500;
              body := JsonError ("JWT encoding error: " ++ exn_str e)%string |}).

(** *** The handlers of the other methods *)
Definition jwks_invalid_methods : M Response :=
  ret {| status := 405; body := JsonError "Method Not Allowed" |}.

Definition auth_invalid_methods : M Response :=
  ret {| status := 405; body := JsonError "Method Not Allowed" |}.

(** ** Routing, as Flask does it for the four [@app.route] lines

    The model covers the two paths that [app.py] routes.  What the
    framework does on other paths (the [/static/] rule that [Flask(__name__)]
    adds, Werkzeug's redirection of doubled slashes) is not part of it: no
    handler of [app.py] runs there and the dictionary is left alone, which
    is all that [dispatch] says about them. *)

Inductive Endpoint : Type :=
| ep_jwks_endpoint
| ep_auth_endpoint
| ep_jwks_invalid_methods
| ep_auth_invalid_methods.

Record Rule : Type := {
  rule_path : string;
  rule_methods : list string;
  rule_endpoint : Endpoint;
  provide_automatic_options : bool
}.

Definition has_method (m : string) (ms : list string) : bool :=
  existsb (String.eqb m) ms.

(** [app.route(path, methods=...)]: when [OPTIONS] is not listed Flask
    adds it and answers it itself; a rule that accepts [GET] accepts
    [HEAD] as well. *)
Definition route (path : string) (methods : list string) (ep : Endpoint)
  : Rule :=
  let automatic := negb (has_method "OPTIONS" methods) in
  let methods := if automatic then methods ++ ["OPTIONS"] else methods in
  let methods :=
    if has_method "GET" methods && negb (has_method "HEAD" methods)
    then methods ++ ["HEAD"] else methods in
  {| rule_path := path; rule_methods := methods; rule_endpoint := ep;
     provide_automatic_options := automatic |}.

Definition jwks_path : string := "/.well-known/jwks.json".
Definition auth_path : string := "/auth".

Definition url_map : list Rule :=
  [ route jwks_path ["GET"] ep_jwks_endpoint;
    route auth_path ["POST"] ep_auth_endpoint;
    route jwks_path ["PUT"; "POST"; "DELETE"; "PATCH"]
          ep_jwks_invalid_methods;
    route auth_path ["GET"; "PUT"; "DELETE"; "PATCH"; "HEAD"]
          ep_auth_invalid_methods ].

(** A request as the handlers see it: the method in upper case, as
    Werkzeug gives it, the path, and the query parameters. *)
Record Request : Type := {
  req_method : string;
  req_path : string;
  req_args : dict string
}.

Definition view (ep : Endpoint) (req : Request) : M Response :=
  match ep with
  | ep_jwks_endpoint => jwks_endpoint
  | ep_auth_endpoint => auth_endpoint (req_args req)
  | ep_jwks_invalid_methods => jwks_invalid_methods
  | ep_auth_invalid_methods => auth_invalid_methods
  end.

(** The first rule of the path that accepts the method is used; a path
    with rules but none for the method gives Flask's own 405, an exception
    that leaves a view 500.  The reply to a [HEAD] request is sent without
    its body.  A path that [app.py] does not route runs no handler and
    keeps the state; the reply there is the framework's own and its status
    (404 here) is not modelled further. *)
Definition dispatch (req : Request) : State -> Response * State :=
  fun s =>
    let reply :=
      match find (fun r => String.eqb (req_path req) (rule_path r) &&
                           has_method (req_method req) (rule_methods r))
                 url_map with
      | Some r =>
          if provide_automatic_options r &&
             String.eqb (req_method req) "OPTIONS"
          then ({| status := 200; body := EmptyBody |}, s)
          else match view (rule_endpoint r) req s with
               | (Ok resp, s') => (resp, s')
               | (Raise _, s') =>
                   ({| status := 500; body := FrameworkPage |}, s')
               end
      | None =>
          if existsb (fun r => String.eqb (req_path req) (rule_path r))
                     url_map
          then ({| status := 405; body := FrameworkPage |}, s)
          else ({| status := 404; body := FrameworkPage |}, s)
      end in
    if String.eqb (req_method req) "HEAD"
    then ({| status := status (fst reply); body := EmptyBody |}, snd reply)
    else reply.
End App.

(** The server handling a sequence of requests, one after the other. *)
Fixpoint serve (env : Env) (reqs : list Request) (s : State)
  : list Response * State :=
  match reqs with
  | [] => ([], s)
  | req :: rest =>
      let (resp, s1) := dispatch env req s in
      let (resps, s2) := serve env rest s1 in
      (resp :: resps, s2)
  end.

Definition request (m path : string) (args : dict string) : Request :=
  {| req_method := m; req_path := path; req_args := args |}.

(** The reply of the two handlers of the other methods. *)
Definition method_not_allowed : Response :=
  {| status := 405; body := JsonError "Method Not Allowed" |}.

(** ** Properties of stores, published keys and replies used in the
    statements *)

(** Public numbers as RSA key generation produces them. *)
Definition rsa_ok (k : RSAPublicKey) : Prop := 0 < pub_n k /\ 0 < pub_e k.

(** The dictionary [keys] as [generate_key] builds it: one entry per
    identifier, no empty identifier, positive public numbers. *)
Definition store_ok (d : dict KeyEntry) : Prop :=
  NoDup (dict_keys d) /\
  Forall (fun item => fst item <> EmptyString /\ rsa_ok (public_key (snd item))) d.

(** The environment as the libraries promise it: a UUID string is not
    empty, and a generated key has the requested public exponent and a
    positive modulus. *)
Definition env_ok (env : Env) : Prop :=
  (forall i, uuid4 env i <> EmptyString) /\
  (forall e bits i,
      pub_e (rsa_public (rsa_generate_private_key env e bits i)) = e /\
      0 < pub_n (rsa_public (rsa_generate_private_key env e bits i))).

(** A clock that never goes back. *)
Definition monotone (env : Env) : Prop :=
  forall i j, (i <= j)%nat -> clock env i <= clock env j.

(** [j] is the published form of the dictionary entry [item]. *)
Definition publishes (item : string * KeyEntry) (j : JWK) : Prop :=
  jwk_kty j = "RSA" /\ jwk_use j = "sig" /\ jwk_alg j = "RS256" /\
  jwk_kid j = fst item /\
  base64url_encode (pub_n (public_key (snd item))) = Ok (jwk_n j) /\
  base64url_encode (pub_e (public_key (snd item))) = Ok (jwk_e j).

(** The header and the claims of the tokens of [auth_endpoint], once
    encoded, and the reply built from the outcome of the signature. *)
Definition token_header (kid : string) : dict string :=
  [("typ", "JWT"); ("alg", "RS256"); ("kid", kid)].

Definition token_claims (iat exp : Z) : dict pyvalue :=
  [("sub", PStr "example_user"); ("iat", PInt iat); ("exp", PInt exp)].

Definition reply_of (env : Env) (key : RSAPrivateKey) (header : dict string)
    (claims : dict pyvalue) : Response :=
  match rs256_sign env key header claims with
  | Ok signature =>
      {| status := 201;
         body := JsonToken {| jwt_header := header; jwt_claims := claims;
                              jwt_signature := signature |} |}
  | Raise e =>
      {| status := 500;
         body := JsonError ("JWT encoding error: " ++ exn_str e)%string |}
  end.

(** The reply of the issuance endpoint when it signs with the entry [key]
    stored under [kid]. *)
Definition issued_with (env : Env) (kid : string) (key : KeyEntry)
    (resp : Response) : Prop :=
  exists iat exp,
    resp = reply_of env (private_key key) (token_header kid)
                    (token_claims iat exp).

(** The two halves of [auth_endpoint]: the choice of the key and the
    construction of the reply. *)
Definition auth_select_key (env : Env) (expired : bool) : M string :=
  kid <- (if expired
          then items <- get_keys ;; next_expired env items
          else ret None) ;;
  match kid with
  | Some k => if String.eqb k EmptyString then generate_key env expired else ret k
  | None => generate_key env expired
  end.

Definition auth_issue (env : Env) (expired : bool) (kid : string)
  : M Response :=
  entry <- keys_getitem kid ;;
  let private_pem := private_key entry in
  t <- datetime_now env ;;
  let exp_time := t + timedelta_minutes 5 in
  exp_time <- (if expired
               then t' <- datetime_now env ;; ret (t' - timedelta_minutes 5)
               else ret exp_time) ;;
  iat <- datetime_now env ;;
  let payload := [("sub", PStr "example_user");
                  ("iat", PDatetime iat);
                  ("exp", PDatetime exp_time)] in
  try_except
    (token <- jwt_encode env payload private_pem "RS256" [("kid", kid)] ;;
     ret {| status := 201; body := JsonToken token |})
    (fun e =>
       ret {| status := 500;
              body := JsonError ("JWT encoding error: " ++ exn_str e)%string |}).

(** ** Sample environments and stores *)

Definition sample_uuid (i : nat) : string :=
  String (ascii_of_nat (48 + i mod 10)) "0000000-0000-4000-8000-000000000000".

Definition sample_env (clock : nat -> Z) : Env :=
  {| clock := clock;
     rsa_generate_private_key := fun e bits i =>
       {| rsa_public := {| pub_n := 2 ^ (bits - 1) + 2 * Z.of_nat i + 1;
                           pub_e := e |};
          rsa_d := 3 |};
     uuid4 := sample_uuid;
     rs256_sign := fun _ _ _ => Ok "signature" |}.

Definition sample_key (n : Z) (expiry : Z) : KeyEntry :=
  let priv := {| rsa_public := {| pub_n := n; pub_e := 65537 |};
                 rsa_d := 2753 |} in
  {| private_key := priv; public_key := rsa_public priv; expiry := expiry |}.

Definition state_of (d : dict KeyEntry) : State :=
  {| keys := d; clock_reads := 0; rsa_draws := 0; uuid_draws := 0 |}.

(** A clock that reads 0.999998 s, 0.999999 s, 1.000000 s, ...: one
    microsecond between two readings. *)
Definition env_second_boundary : Env :=
  sample_env (fun i => 999998 + Z.of_nat i).

(** The token of a plain [POST /auth] on the empty store with that clock. *)
Definition token_second_boundary : JWT :=
  {| jwt_header := token_header (sample_uuid 0);
     jwt_claims := token_claims 1 300;
     jwt_signature := "signature" |}.

(** A clock that always reads 1000 microseconds. *)
Definition env_1000 : Env := sample_env (fun _ => 1000).

(** A store with one key that expired one microsecond before 1000, one
    that expires at 1000 and one that expires later. *)
Definition store_mixed : dict KeyEntry :=
  [("a", sample_key 3233 999); ("b", sample_key 3127 1000);
   ("c", sample_key 2773 5000)].

(** A store whose only key expires at 1000. *)
Definition store_boundary : dict KeyEntry := [("k", sample_key 3233 1000)].

(** The published form of that key. *)
Definition jwk_boundary : JWK :=
  {| jwk_kty := "RSA"; jwk_use := "sig"; jwk_kid := "k";
     jwk_n := "DKE"; jwk_e := "AQAB"; jwk_alg := "RS256" |}.

(** A store whose only key has expired at 1000. *)
Definition store_expired : dict KeyEntry := [("a", sample_key 3233 999)].

(** A store that already holds a key under the first identifier that
    [sample_uuid] gives. *)
Definition store_taken : dict KeyEntry := [(sample_uuid 0, sample_key 3233 5000)].

(* ===================================================================== *)
(** * Part II: lemmas on the definitions                                   *)
(* ===================================================================== *)

Example base64url_encode_65537 : base64url_encode 65537 = Ok "AQAB".
Proof. reflexivity. Qed.

Example base64url_encode_0 : base64url_encode 0 = Ok EmptyString.
Proof. reflexivity. Qed.

Example base64url_encode_255 : base64url_encode 255 = Ok "_w".
Proof. reflexivity. Qed.

Example decode_int_AQAB : decode_int "AQAB" = Some 65537.
Proof. reflexivity. Qed.

Example base64url_encode_251 : base64url_encode 251 = Ok "-w".
Proof. reflexivity. Qed.

Example decode_int_urlsafe : decode_int "-w" = Some 251 /\ decode_int "_w" = Some 255.
Proof. split; reflexivity. Qed.

Example decode_int_standard_alphabet :
  decode_int "+w" = None /\ decode_int "/w" = None.
Proof. split; reflexivity. Qed.

Example exn_str_key_error : exn_str (KeyError "abc") = "'abc'".
Proof. reflexivity. Qed.

Example py_repr_quote : py_repr "it's" = String dquote ("it's" ++ String dquote EmptyString)%string.
Proof. reflexivity. Qed.

(** ** Lists taken three elements at a time *)

Section ListInd3.
Context {A : Type} (P : list A -> Prop).
Hypothesis P0 : P [].
Hypothesis P1 : forall a, P [a].
Hypothesis P2 : forall a b, P [a; b].
Hypothesis P3 : forall a b c l, P l -> P (a :: b :: c :: l).

Lemma list_ind3 : forall l, P l.
Proof.
  assert (H : forall l, P l /\ (forall a, P (a :: l)) /\
                        (forall a b, P (a :: b :: l))).
  { induction l as [|x l (IH0 & IH1 & IH2)].
    - repeat split; auto.
    - repeat split; auto. }
  intro l. apply H.
Qed.
End ListInd3.

(** ** Integers as big-endian bytes *)

Lemma big_endian_length n v : List.length (big_endian n v) = n.
Proof.
  revert v. induction n as [|n IH]; intro v; simpl; [reflexivity|].
  rewrite length_app, IH. simpl. lia.
Qed.

Lemma big_endian_bytes n v : Forall is_byte (big_endian n v).
Proof.
  revert v. induction n as [|n IH]; intro v; simpl; [constructor|].
  apply Forall_app. split; [apply IH|].
  constructor; [|constructor]. unfold is_byte. apply Z.mod_pos_bound. lia.
Qed.

Lemma from_bytes_snoc l b : from_bytes (l ++ [b]) = from_bytes l * 256 + b.
Proof. unfold from_bytes. rewrite fold_left_app. reflexivity. Qed.

Lemma from_bytes_big_endian n v :
  from_bytes (big_endian n v) = v mod 256 ^ Z.of_nat n.
Proof.
  revert v. induction n as [|n IH]; intro v.
  - simpl. rewrite Z.mod_1_r. reflexivity.
  - cbn [big_endian]. rewrite from_bytes_snoc, IH.
    rewrite Nat2Z.inj_succ, Z.pow_succ_r by lia.
    rewrite (Z.rem_mul_r v 256 (256 ^ Z.of_nat n)); [lia | lia |].
    apply Z.pow_pos_nonneg; lia.
Qed.

Lemma from_bytes_bound bs :
  Forall is_byte bs -> 0 <= from_bytes bs < 256 ^ Z.of_nat (List.length bs).
Proof.
  induction bs as [|b bs IH] using rev_ind; intro H.
  - cbn. lia.
  - apply Forall_app in H. destruct H as [Hbs Hb].
    inversion Hb as [|? ? Hb' _]; subst. unfold is_byte in Hb'.
    specialize (IH Hbs). rewrite from_bytes_snoc, length_app.
    change (List.length [b]) with 1%nat.
    replace (Z.of_nat (List.length bs + 1))
      with (Z.succ (Z.of_nat (List.length bs))) by lia.
    rewrite Z.pow_succ_r by lia. lia.
Qed.

Lemma big_endian_head n v :
  exists t, big_endian (S n) v = (v / 256 ^ Z.of_nat n) mod 256 :: t.
Proof.
  revert v. induction n as [|n IH]; intro v.
  - exists []. cbn. rewrite Z.div_1_r. reflexivity.
  - destruct (IH (v / 256)) as [t Ht].
    exists (t ++ [v mod 256]).
    change (big_endian (S (S n)) v)
      with (big_endian (S n) (v / 256) ++ [v mod 256]).
    rewrite Ht. cbn [app]. f_equal.
    rewrite Nat2Z.inj_succ, Z.pow_succ_r by lia.
    rewrite Z.div_div by (try apply Z.pow_pos_nonneg; lia). reflexivity.
Qed.

(** ** [bit_length] and the number of bytes *)

Lemma bit_length_nonneg v : 0 <= bit_length v.
Proof.
  unfold bit_length. destruct (v =? 0); [lia|].
  pose proof (Z.log2_nonneg (Z.abs v)). lia.
Qed.

Lemma bit_length_upper v : 0 <= v -> v < 2 ^ bit_length v.
Proof.
  intro Hv. unfold bit_length. destruct (Z.eqb_spec v 0) as [->|Hne].
  - cbn. lia.
  - rewrite Z.abs_eq by lia.
    replace (Z.log2 v + 1) with (Z.succ (Z.log2 v)) by lia.
    apply Z.log2_spec. lia.
Qed.

Lemma bit_length_lower v : 0 < v -> 2 ^ (bit_length v - 1) <= v.
Proof.
  intro Hv. unfold bit_length. destruct (Z.eqb_spec v 0) as [->|Hne]; [lia|].
  rewrite Z.abs_eq by lia.
  replace (Z.log2 v + 1 - 1) with (Z.log2 v) by lia.
  apply Z.log2_spec. lia.
Qed.

Lemma pow_256 k : 0 <= k -> 256 ^ k = 2 ^ (8 * k).
Proof. intro Hk. rewrite Z.pow_mul_r by lia. reflexivity. Qed.

Lemma byte_count_upper v : 0 <= v -> v < 256 ^ ((bit_length v + 7) / 8).
Proof.
  intro Hv. pose proof (bit_length_nonneg v) as Hb.
  pose proof (bit_length_upper v Hv) as Hu.
  assert (Hk : bit_length v <= 8 * ((bit_length v + 7) / 8)).
  { pose proof (Z.div_mod (bit_length v + 7) 8 ltac:(lia)).
    pose proof (Z.mod_pos_bound (bit_length v + 7) 8 ltac:(lia)). lia. }
  rewrite pow_256 by (apply Z.div_pos; lia).
  eapply Z.lt_le_trans; [exact Hu|].
  apply Z.pow_le_mono_r; lia.
Qed.

Lemma byte_count_lower v :
  0 < v -> 256 ^ ((bit_length v + 7) / 8 - 1) <= v.
Proof.
  intro Hv. pose proof (bit_length_lower v Hv) as Hl.
  assert (Hpos : 1 <= bit_length v).
  { unfold bit_length. destruct (Z.eqb_spec v 0); [lia|].
    pose proof (Z.log2_nonneg (Z.abs v)). lia. }
  assert (Hk : 8 * ((bit_length v + 7) / 8 - 1) <= bit_length v - 1).
  { pose proof (Z.div_mod (bit_length v + 7) 8 ltac:(lia)).
    pose proof (Z.mod_pos_bound (bit_length v + 7) 8 ltac:(lia)). lia. }
  assert (H1 : 1 <= (bit_length v + 7) / 8).
  { apply Z.div_le_lower_bound; lia. }
  rewrite pow_256 by lia.
  eapply Z.le_trans; [|exact Hl].
  apply Z.pow_le_mono_r; lia.
Qed.

Lemma to_bytes_minimal v :
  0 <= v ->
  to_bytes v ((bit_length v + 7) / 8) =
  Ok (big_endian (Z.to_nat ((bit_length v + 7) / 8)) v).
Proof.
  intro Hv. unfold to_bytes.
  destruct (Z.ltb_spec v 0); [lia|].
  pose proof (byte_count_upper v Hv).
  destruct (Z.leb_spec (256 ^ ((bit_length v + 7) / 8)) v); [lia|].
  reflexivity.
Qed.

(** ** The base64 alphabet *)

Lemma b64_char_in_alphabet i : is_sextet i -> In (b64_char i) b64_alphabet.
Proof.
  intros [Hlo Hhi]. unfold b64_char. apply nth_In.
  change (List.length b64_alphabet) with 64%nat. lia.
Qed.

Lemma urlsafe_alphabet_ok :
  Forall (fun c => urlsafe_char (urlsafe_translation c) = true /\
                   urlsafe_translation c <> pad_char) b64_alphabet.
Proof.
  unfold b64_alphabet. cbn [list_ascii_of_string].
  repeat (constructor; [split; [reflexivity | discriminate]|]).
  constructor.
Qed.

Lemma index_of_alphabet :
  forallb (fun n => match index_of (urlsafe_translation
                                      (b64_char (Z.of_nat n)))
                                   urlsafe_alphabet with
                    | Some i => i =? Z.of_nat n
                    | None => false
                    end) (seq 0 64) = true.
Proof. vm_compute. reflexivity. Qed.

Lemma index_of_b64_char i :
  is_sextet i ->
  index_of (urlsafe_translation (b64_char i)) urlsafe_alphabet = Some i.
Proof.
  intros [Hlo Hhi].
  pose proof (proj1 (forallb_forall _ _) index_of_alphabet (Z.to_nat i)) as H.
  cbv beta in H. rewrite Z2Nat.id in H by lia.
  assert (Hin : In (Z.to_nat i) (seq 0 64)) by (apply in_seq; lia).
  specialize (H Hin).
  destruct (index_of (urlsafe_translation (b64_char i)) urlsafe_alphabet);
    [|discriminate].
  apply Z.eqb_eq in H. congruence.
Qed.

Lemma sextets_of_chars l :
  Forall is_sextet l ->
  sextets_of (map urlsafe_translation (map b64_char l)) = Some l.
Proof.
  induction 1 as [|i l Hi _ IH]; [reflexivity|].
  cbn [map sextets_of]. rewrite index_of_b64_char, IH by assumption.
  reflexivity.
Qed.

(** ** Encoding in groups of three bytes *)

Lemma b64encode_split s :
  b64encode s = map b64_char (b64_sextets s) ++ repeat pad_char (b64_padding s).
Proof.
  induction s as [| a | a b | a b c l IH] using list_ind3; try reflexivity.
  cbn [b64encode b64_sextets b64_padding map app]. rewrite IH. reflexivity.
Qed.

Lemma b64_sextets_range s : Forall is_byte s -> Forall is_sextet (b64_sextets s).
Proof.
  unfold is_byte, is_sextet.
  induction s as [| a | a b | a b c l IH] using list_ind3; intro H.
  - constructor.
  - inversion H as [|? ? Ha _]; subst. cbn [b64_sextets].
    repeat constructor; Z.div_mod_to_equations; lia.
  - inversion H as [|? ? Ha H']; subst. inversion H' as [|? ? Hb _]; subst.
    cbn [b64_sextets]. repeat constructor; Z.div_mod_to_equations; lia.
  - inversion H as [|? ? Ha H']; subst. inversion H' as [|? ? Hb H'']; subst.
    inversion H'' as [|? ? Hc Hl]; subst. cbn [b64_sextets].
    repeat (constructor; [Z.div_mod_to_equations; lia|]). apply IH, Hl.
Qed.

Lemma bytes_of_b64_sextets s :
  Forall is_byte s -> bytes_of_sextets (b64_sextets s) = Some s.
Proof.
  unfold is_byte.
  induction s as [| a | a b | a b c l IH] using list_ind3; intro H.
  - reflexivity.
  - inversion H as [|? ? Ha _]; subst. cbn [b64_sextets bytes_of_sextets].
    do 2 f_equal. Z.div_mod_to_equations; lia.
  - inversion H as [|? ? Ha H']; subst. inversion H' as [|? ? Hb _]; subst.
    cbn [b64_sextets bytes_of_sextets].
    do 2 f_equal; [|f_equal]; Z.div_mod_to_equations; lia.
  - inversion H as [|? ? Ha H']; subst. inversion H' as [|? ? Hb H'']; subst.
    inversion H'' as [|? ? Hc Hl]; subst.
    cbn [b64_sextets bytes_of_sextets]. rewrite (IH Hl).
    do 2 f_equal; [|f_equal; [|f_equal]]; Z.div_mod_to_equations; lia.
Qed.

Lemma b64_sextets_nil s : b64_sextets s = [] -> s = [].
Proof. destruct s as [|a [|b [|c r]]]; [reflexivity | discriminate ..]. Qed.

Lemma b64_sextets_length s :
  Z.of_nat (List.length (b64_sextets s)) = (4 * Z.of_nat (List.length s) + 2) / 3.
Proof.
  induction s as [| a | a b | a b c l IH] using list_ind3; try reflexivity.
  cbn [b64_sextets List.length].
  rewrite !Nat2Z.inj_succ, IH. Z.div_mod_to_equations; lia.
Qed.

(** ** Stripping the padding *)

Lemma decode_length (l : list ascii) :
  String.length (string_of_list_ascii l) = List.length l.
Proof. induction l as [|c l IH]; cbn; [reflexivity|]. rewrite IH. reflexivity. Qed.

Lemma rstrip_repeat c k : rstrip c (repeat c k) = [].
Proof.
  induction k as [|k IH]; [reflexivity|].
  cbn [repeat rstrip]. rewrite IH, Ascii.eqb_refl. reflexivity.
Qed.

Lemma rstrip_app_repeat c xs k :
  Forall (fun x => x <> c) xs -> rstrip c (xs ++ repeat c k) = xs.
Proof.
  induction 1 as [|x xs Hx _ IH]; [apply rstrip_repeat|].
  cbn [app rstrip]. rewrite IH.
  destruct xs; [|reflexivity].
  destruct (Ascii.eqb_spec x c); [contradiction|reflexivity].
Qed.

Lemma urlsafe_chars_of_sextets l :
  Forall is_sextet l ->
  Forall (fun c => urlsafe_char c = true /\ c <> pad_char)
         (map urlsafe_translation (map b64_char l)).
Proof.
  induction 1 as [|i l Hi _ IH]; [constructor|].
  cbn [map]. constructor; [|exact IH].
  pose proof urlsafe_alphabet_ok as Hall.
  rewrite Forall_forall in Hall. apply Hall, b64_char_in_alphabet, Hi.
Qed.

Lemma rstrip_urlsafe_b64encode s :
  Forall is_byte s ->
  rstrip pad_char (urlsafe_b64encode s) =
  map urlsafe_translation (map b64_char (b64_sextets s)).
Proof.
  intro H. unfold urlsafe_b64encode.
  rewrite b64encode_split, map_app, map_repeat.
  change (urlsafe_translation pad_char) with pad_char.
  apply rstrip_app_repeat.
  eapply Forall_impl; [|apply urlsafe_chars_of_sextets, b64_sextets_range, H].
  cbv beta. intros c [_ Hc]. exact Hc.
Qed.

(** What [base64url_encode] returns for a non-negative integer. *)
Lemma base64url_encode_value v :
  0 <= v ->
  base64url_encode v =
  Ok (decode_utf8
        (map urlsafe_translation
           (map b64_char
              (b64_sextets
                 (big_endian (Z.to_nat ((bit_length v + 7) / 8)) v))))).
Proof.
  intro Hv. unfold base64url_encode. rewrite to_bytes_minimal by assumption.
  rewrite rstrip_urlsafe_b64encode by apply big_endian_bytes. reflexivity.
Qed.

Lemma base64url_decode_encode v s :
  0 <= v -> base64url_encode v = Ok s ->
  base64url_decode s = Some (big_endian (Z.to_nat ((bit_length v + 7) / 8)) v).
Proof.
  intros Hv He. rewrite base64url_encode_value in He by assumption.
  injection He as <-. unfold base64url_decode, decode_utf8.
  rewrite list_ascii_of_string_of_list_ascii.
  rewrite sextets_of_chars by apply b64_sextets_range, big_endian_bytes.
  apply bytes_of_b64_sextets, big_endian_bytes.
Qed.

Lemma from_bytes_to_bytes v :
  0 <= v -> from_bytes (big_endian (Z.to_nat ((bit_length v + 7) / 8)) v) = v.
Proof.
  intro Hv. rewrite from_bytes_big_endian.
  pose proof (bit_length_nonneg v).
  rewrite Z2Nat.id by (apply Z.div_pos; lia).
  apply Z.mod_small. split; [lia|]. apply byte_count_upper, Hv.
Qed.

(** ** Dictionaries *)

Section DictFacts.
Context {V : Type}.
Implicit Types (d : dict V) (k : string) (v : V).

Lemma dict_get_set_same k v d : dict_get k (dict_set k v d) = Some v.
Proof.
  induction d as [|[k' v'] d IH]; cbn.
  - rewrite String.eqb_refl. reflexivity.
  - destruct (String.eqb_spec k k') as [->|Hne]; cbn.
    + rewrite String.eqb_refl. reflexivity.
    + destruct (String.eqb_spec k k'); [contradiction|exact IH].
Qed.

Lemma dict_get_set_other k k0 v d :
  k0 <> k -> dict_get k0 (dict_set k v d) = dict_get k0 d.
Proof.
  intro Hne. induction d as [|[k' v'] d IH]; cbn.
  - destruct (String.eqb_spec k0 k); [contradiction|reflexivity].
  - destruct (String.eqb_spec k k') as [->|Hk]; cbn.
    + destruct (String.eqb_spec k0 k'); [contradiction|reflexivity].
    + rewrite IH. reflexivity.
Qed.

Lemma dict_contains_keys k d :
  dict_contains k d = true <-> In k (dict_keys d).
Proof.
  unfold dict_contains, dict_keys. rewrite existsb_exists, in_map_iff.
  split.
  - intros [kv [Hin Heq]]. apply String.eqb_eq in Heq. exists kv. auto.
  - intros [kv [Heq Hin]]. exists kv. split; [exact Hin|].
    apply String.eqb_eq. auto.
Qed.

Lemma dict_set_fresh k v d :
  dict_contains k d = false -> dict_set k v d = d ++ [(k, v)].
Proof.
  induction d as [|[k' v'] d IH]; cbn; [reflexivity|].
  destruct (String.eqb_spec k k'); cbn; [discriminate|].
  intro H. rewrite (IH H). reflexivity.
Qed.

Lemma dict_keys_set k v d :
  dict_keys (dict_set k v d) =
  if dict_contains k d then dict_keys d else dict_keys d ++ [k].
Proof.
  unfold dict_keys, dict_contains.
  induction d as [|[k' v'] d IH]; cbn; [reflexivity|].
  destruct (String.eqb_spec k k') as [->|Hne]; cbn; [reflexivity|].
  rewrite IH. destruct (existsb _ d); reflexivity.
Qed.

Lemma dict_set_nodup k v d :
  NoDup (dict_keys d) -> NoDup (dict_keys (dict_set k v d)).
Proof.
  intro H. rewrite dict_keys_set.
  destruct (dict_contains k d) eqn:Hc; [exact H|].
  apply NoDup_app; [exact H | repeat constructor; intros [] |].
  intros x Hx [<-|[]].
  apply dict_contains_keys in Hx. congruence.
Qed.

Lemma dict_get_in k v d : dict_get k d = Some v -> In (k, v) d.
Proof.
  induction d as [|[k' v'] d IH]; cbn; [discriminate|].
  destruct (String.eqb_spec k k') as [->|Hne].
  - intros [= ->]. left. reflexivity.
  - intro H. right. apply IH, H.
Qed.

Lemma in_dict_get k v d : In (k, v) d -> exists v', dict_get k d = Some v'.
Proof.
  induction d as [|[k' v'] d IH]; cbn; [intros []|].
  destruct (String.eqb_spec k k') as [->|Hne]; [eauto|].
  intros [[= -> ->]|H]; [contradiction|apply IH, H].
Qed.

Lemma nodup_keys_inj d (a b : string * V) :
  NoDup (dict_keys d) -> In a d -> In b d -> fst a = fst b -> a = b.
Proof.
  induction d as [|x d IH]; cbn; [intros _ []|].
  intros Hnd Ha Hb Heq. inversion Hnd as [|? ? Hx Hd]; subst.
  destruct Ha as [->|Ha], Hb as [->|Hb]; auto.
  - exfalso. apply Hx. rewrite Heq. apply in_map, Hb.
  - exfalso. apply Hx. rewrite <- Heq. apply in_map, Ha.
Qed.

Lemma dict_del_filter k d :
  NoDup (dict_keys d) -> In k (dict_keys d) ->
  dict_del k d = Some (filter (fun kv => negb (String.eqb k (fst kv))) d).
Proof.
  induction d as [|[k' v'] d IH]; cbn; [intros _ []|].
  intros Hnd Hin. inversion Hnd as [|? ? Hx Hd]; subst.
  destruct (String.eqb_spec k k') as [->|Hne]; cbn.
  - f_equal. symmetry. apply forallb_filter_id, forallb_forall.
    intros kv Hkv. destruct (String.eqb_spec k' (fst kv)) as [->|]; [|reflexivity].
    exfalso. apply Hx, in_map, Hkv.
  - destruct Hin as [->|Hin]; [contradiction|].
    rewrite (IH Hd Hin). reflexivity.
Qed.

Lemma dict_del_incl k d d' : dict_del k d = Some d' -> incl d' d.
Proof.
  revert d'. induction d as [|[k' v'] d IH]; cbn; [discriminate|].
  intros d'. destruct (String.eqb k k').
  - intros [= <-]. apply incl_tl, incl_refl.
  - destruct (dict_del k d) as [r|]; [|discriminate].
    intros [= <-]. apply incl_cons; [left; reflexivity|].
    apply incl_tl, IH. reflexivity.
Qed.
End DictFacts.

Lemma in_dict_get_nodup {V : Type} k (v : V) d :
  NoDup (dict_keys d) -> In (k, v) d -> dict_get k d = Some v.
Proof.
  intros Hnd Hin. destruct (in_dict_get k v d Hin) as [v' Hget].
  rewrite Hget. f_equal. apply dict_get_in in Hget.
  assert (H : (k, v') = (k, v)) by (eapply nodup_keys_inj; eauto).
  congruence.
Qed.

Lemma nodup_keys_filter {V : Type} (p : string * V -> bool) (d : dict V) :
  NoDup (dict_keys d) -> NoDup (dict_keys (filter p d)).
Proof.
  unfold dict_keys. induction d as [|x d IH]; cbn; [auto|].
  intro H. inversion H as [|? ? Hx Hd]; subst.
  destruct (p x); cbn; [|auto].
  constructor; [|auto].
  intro Hin. apply Hx. apply in_map_iff in Hin.
  destruct Hin as [y [Hy Hin]]. apply filter_In in Hin.
  rewrite <- Hy. apply in_map, Hin.
Qed.

Lemma filter_filter {A : Type} (p q : A -> bool) (l : list A) :
  filter p (filter q l) = filter (fun x => q x && p x) l.
Proof.
  induction l as [|x l IH]; cbn; [reflexivity|].
  destruct (q x); cbn; [destruct (p x)|]; rewrite IH; reflexivity.
Qed.

Lemma filter_true {A : Type} (p : A -> bool) (l : list A) :
  (forall x, In x l -> p x = true) -> filter p l = l.
Proof.
  intro H. apply forallb_filter_id, forallb_forall, H.
Qed.

Lemma filter_none {A : Type} (p : A -> bool) (l : list A) :
  (forall x, In x l -> p x = false) -> filter p l = [].
Proof.
  induction l as [|x l IH]; cbn; [reflexivity|].
  intro H. rewrite (H x (or_introl eq_refl)). apply IH.
  intros y Hy. apply H. right. exact Hy.
Qed.

(** ** The program state *)

Lemma with_keys_same s : with_keys (keys s) s = s.
Proof. destruct s. reflexivity. Qed.

Lemma ticks_ticks m n s : ticks m (ticks n s) = ticks (m + n) s.
Proof. unfold ticks. cbn. f_equal. lia. Qed.

Lemma ticks_tick m s : ticks m (tick s) = ticks (S m) s.
Proof. unfold tick. rewrite ticks_ticks. f_equal. lia. Qed.

Lemma bind_assoc_run {A B C : Type} (m : M A) (f : A -> M B) (g : B -> M C) s :
  bind m (fun x => bind (f x) g) s = bind (bind m f) g s.
Proof. unfold bind. destruct (m s) as [[a|e] s']; reflexivity. Qed.

(** ** [generate_key] *)

Lemma generate_key_run env expired s :
  generate_key env expired s =
  let priv := rsa_generate_private_key env 65537 2048 (rsa_draws s) in
  let kid := uuid4 env (uuid_draws s) in
  let expiry :=
    if expired then clock env (S (clock_reads s)) - timedelta_minutes 5
    else clock env (clock_reads s) + timedelta_hours 1 in
  let entry := {| private_key := priv; public_key := rsa_public priv;
                  expiry := expiry |} in
  (Ok kid,
   with_keys (dict_set kid entry (keys s))
     (ticks (if expired then 2 else 1) (uuid_drawn (rsa_drawn s)))).
Proof. destruct expired; reflexivity. Qed.

(** ** The purge loop of [jwks_endpoint] *)

Lemma purge_loop ks :
  forall s,
    NoDup ks -> incl ks (dict_keys (keys s)) -> NoDup (dict_keys (keys s)) ->
    for_each ks keys_delitem s =
    (Ok tt,
     with_keys
       (filter (fun kv => negb (existsb (fun k => String.eqb k (fst kv)) ks))
               (keys s)) s).
Proof.
  induction ks as [|k ks IH]; intros s Hks Hincl Hnd.
  - cbn. rewrite filter_true by reflexivity. rewrite with_keys_same.
    reflexivity.
  - inversion Hks as [|? ? Hk Hks']; subst.
    assert (Hin : In k (dict_keys (keys s))) by (apply Hincl; left; reflexivity).
    cbn [for_each]. unfold bind at 1. unfold keys_delitem at 1.
    unfold bind at 1, get_keys at 1.
    rewrite (dict_del_filter k (keys s) Hnd Hin).
    unfold put_keys at 1.
    set (d1 := filter (fun kv => negb (String.eqb k (fst kv))) (keys s)).
    rewrite IH.
    + cbn [keys with_keys]. unfold with_keys. cbn. subst d1.
      rewrite filter_filter. f_equal. f_equal.
      apply filter_ext. intro kv. cbn [existsb].
      rewrite negb_orb. reflexivity.
    + exact Hks'.
    + cbn [keys with_keys]. intros k' Hk'.
      specialize (Hincl k' (or_intror Hk')).
      unfold dict_keys in *. apply in_map_iff in Hincl.
      destruct Hincl as [kv [Hkv Hin']]. apply in_map_iff.
      exists kv. split; [exact Hkv|]. subst d1. apply filter_In.
      split; [exact Hin'|].
      destruct (String.eqb_spec k (fst kv)); [|reflexivity]. congruence.
    + cbn [keys with_keys]. apply nodup_keys_filter, Hnd.
Qed.

Lemma purge_expired (d : dict KeyEntry) now :
  NoDup (dict_keys d) ->
  filter (fun kv =>
            negb (existsb (fun k => String.eqb k (fst kv))
                    (map fst (filter (fun item => expiry (snd item) <? now) d))))
         d =
  filter (fun item => now <=? expiry (snd item)) d.
Proof.
  intro Hnd. apply filter_ext_in. intros kv Hkv.
  rewrite Z.leb_antisym. f_equal.
  destruct (expiry (snd kv) <? now) eqn:Hexp.
  - apply existsb_exists. exists (fst kv). split; [|apply String.eqb_refl].
    apply in_map, filter_In. auto.
  - apply not_true_is_false. intro Hex. apply existsb_exists in Hex.
    destruct Hex as [k [Hk Heq]]. apply String.eqb_eq in Heq. subst k.
    apply in_map_iff in Hk. destruct Hk as [kv' [Hfst Hin']].
    apply filter_In in Hin'. destruct Hin' as [Hin' Hexp'].
    assert (kv' = kv) by (eapply nodup_keys_inj; eauto). subst kv'.
    congruence.
Qed.

Lemma purge_loop_incl ks :
  forall s u s', for_each ks keys_delitem s = (Ok u, s') ->
                 incl (keys s') (keys s) /\ clock_reads s' = clock_reads s.
Proof.
  induction ks as [|k ks IH]; intros s u s' H.
  - cbn in H. injection H as _ <-. split; [apply incl_refl|reflexivity].
  - cbn [for_each] in H. unfold bind at 1 in H.
    unfold keys_delitem at 1 in H. unfold bind at 1, get_keys at 1 in H.
    destruct (dict_del k (keys s)) as [d1|] eqn:Hdel; [|discriminate].
    unfold put_keys at 1 in H. apply IH in H. destruct H as [Hi Hc].
    cbn [keys with_keys clock_reads] in Hi, Hc. split; [|exact Hc].
    eapply incl_tran; [exact Hi|]. eapply dict_del_incl, Hdel.
Qed.

(** ** The list of published keys *)

Lemma jwk_of_inv item s j s' :
  jwk_of item s = (Ok j, s') -> s' = s /\ publishes item j.
Proof.
  destruct item as [kid key]. unfold jwk_of, bind, lift, ret.
  destruct (base64url_encode (pub_n (public_key key))) as [n|] eqn:Hn;
    [|discriminate].
  destruct (base64url_encode (pub_e (public_key key))) as [e|] eqn:He;
    [|discriminate].
  intros [= <- <-]. split; [reflexivity|].
  unfold publishes. cbn. auto 10.
Qed.

Lemma comprehension_jwk_inv items :
  forall s jwks s',
    comprehension items jwk_of s = (Ok jwks, s') ->
    s' = s /\ Forall2 publishes items jwks.
Proof.
  induction items as [|item items IH]; intros s jwks s' H.
  - cbn in H. injection H as <- <-. auto.
  - cbn [comprehension] in H. unfold bind at 1 in H.
    destruct (jwk_of item s) as [[j|e] s1] eqn:Hj; [|discriminate].
    apply jwk_of_inv in Hj. destruct Hj as [-> Hpub].
    unfold bind at 1 in H.
    destruct (comprehension items jwk_of s) as [[js|e] s2] eqn:Hjs;
      [|discriminate].
    apply IH in Hjs. destruct Hjs as [-> Hall].
    cbn in H. injection H as <- <-. auto.
Qed.

Lemma base64url_encode_ok v : 0 <= v -> exists t, base64url_encode v = Ok t.
Proof. intro H. rewrite base64url_encode_value by assumption. eauto. Qed.

Lemma jwk_of_ok item s :
  0 <= pub_n (public_key (snd item)) -> 0 <= pub_e (public_key (snd item)) ->
  exists j, jwk_of item s = (Ok j, s).
Proof.
  destruct item as [kid key]. cbn [snd]. intros Hn He.
  destruct (base64url_encode_ok _ Hn) as [n Hn'].
  destruct (base64url_encode_ok _ He) as [e He'].
  unfold jwk_of, bind, lift, ret. rewrite Hn', He'. eauto.
Qed.

Lemma comprehension_jwk_ok items s :
  Forall (fun item => 0 <= pub_n (public_key (snd item)) /\
                      0 <= pub_e (public_key (snd item))) items ->
  exists jwks, comprehension items jwk_of s = (Ok jwks, s).
Proof.
  induction 1 as [|item items [Hn He] _ [jwks IH]].
  - exists []. reflexivity.
  - destruct (jwk_of_ok item s Hn He) as [j Hj].
    exists (j :: jwks). cbn [comprehension]. unfold bind.
    rewrite Hj, IH. reflexivity.
Qed.

(** ** [jwks_endpoint] *)

Lemma jwks_endpoint_unfold env s :
  jwks_endpoint env s =
  let now := clock env (clock_reads s) in
  let expired_keys :=
    map fst (filter (fun item => expiry (snd item) <? now) (keys s)) in
  match for_each expired_keys keys_delitem (tick s) with
  | (Ok _, s1) =>
      match comprehension (keys s1) jwk_of s1 with
      | (Ok valid_keys, s2) =>
          (Ok {| status := 200; body := JsonKeys valid_keys |}, s2)
      | (Raise e, s2) => (Raise e, s2)
      end
  | (Raise e, s1) => (Raise e, s1)
  end.
Proof.
  unfold jwks_endpoint, bind, datetime_now, get_keys. cbn [keys tick ticks].
  destruct (for_each _ keys_delitem (tick s)) as [[u|e] s1]; [|reflexivity].
  destruct (comprehension (keys s1) jwk_of s1) as [[js|e] s2];
    reflexivity.
Qed.

Lemma jwks_endpoint_inv env s resp s' :
  jwks_endpoint env s = (Ok resp, s') ->
  exists jwks,
    resp = {| status := 200; body := JsonKeys jwks |} /\
    incl (keys s') (keys s) /\ Forall2 publishes (keys s') jwks.
Proof.
  rewrite jwks_endpoint_unfold. cbv zeta.
  destruct (for_each _ keys_delitem (tick s)) as [[u|e] s1] eqn:Hloop;
    [|discriminate].
  destruct (comprehension (keys s1) jwk_of s1) as [[js|e] s2] eqn:Hjs;
    [|discriminate].
  intros [= <- <-]. apply comprehension_jwk_inv in Hjs.
  destruct Hjs as [-> Hall]. apply purge_loop_incl in Hloop.
  exists js. split; [reflexivity|]. split; [apply Hloop | exact Hall].
Qed.

Lemma jwks_endpoint_run env s :
  let now := clock env (clock_reads s) in
  let kept := filter (fun item => now <=? expiry (snd item)) (keys s) in
  NoDup (dict_keys (keys s)) ->
  Forall (fun item => 0 <= pub_n (public_key (snd item)) /\
                      0 <= pub_e (public_key (snd item))) kept ->
  exists jwks,
    jwks_endpoint env s =
    (Ok {| status := 200; body := JsonKeys jwks |}, with_keys kept (tick s)) /\
    Forall2 publishes kept jwks.
Proof.
  intros now kept Hnd Henc. rewrite jwks_endpoint_unfold. cbv zeta.
  fold now. rewrite purge_loop.
  - cbn [keys tick ticks]. rewrite (purge_expired (keys s) now Hnd). fold kept.
    destruct (comprehension_jwk_ok kept (with_keys kept (tick s)) Henc)
      as [jwks Hjs].
    cbn [keys with_keys]. rewrite Hjs. exists jwks. split; [reflexivity|].
    apply comprehension_jwk_inv in Hjs. apply Hjs.
  - apply (nodup_keys_filter _ _ Hnd).
  - intros k Hk. apply in_map_iff in Hk. destruct Hk as [kv [<- Hkv]].
    apply filter_In in Hkv. apply in_map, Hkv.
  - exact Hnd.
Qed.

(** ** [auth_endpoint]: the choice of the key *)

Lemma next_expired_run env items :
  forall s, exists r m,
    next_expired env items s = (Ok r, ticks m s) /\
    (m <= List.length items)%nat /\
    match r with
    | Some k =>
        exists key i,
          (i < List.length items)%nat /\ In (k, key) items /\
          expiry key < clock env (i + clock_reads s)
    | None =>
        m = List.length items /\
        forall i kv, nth_error items i = Some kv ->
                     clock env (i + clock_reads s) <= expiry (snd kv)
    end.
Proof.
  induction items as [|[k v] items IH]; intro s.
  - exists None, 0%nat. cbn. unfold ret.
    change (ticks 0 s) with (with_keys (keys s) s). rewrite with_keys_same.
    repeat split; auto. intros [|i] kv; discriminate.
  - cbn [next_expired]. unfold bind at 1, datetime_now at 1.
    destruct (expiry v <? clock env (clock_reads s)) eqn:Hexp.
    + exists (Some k), 1%nat. split; [reflexivity|].
      split; [cbn; lia|]. exists v, 0%nat.
      split; [cbn; lia|]. split; [left; reflexivity|].
      apply Z.ltb_lt in Hexp. exact Hexp.
    + destruct (IH (tick s)) as [r [m [Hrun [Hm Hr]]]].
      exists r, (S m). rewrite Hrun, ticks_tick.
      split; [reflexivity|]. split; [cbn; lia|].
      apply Z.ltb_ge in Hexp.
      destruct r as [k'|].
      * destruct Hr as [key [i [Hi [Hin Hlt]]]].
        exists key, (S i). split; [cbn; lia|]. split; [right; exact Hin|].
        cbn [clock_reads tick ticks] in Hlt.
        replace (S i + clock_reads s)%nat
          with (i + (1 + clock_reads s))%nat by lia. exact Hlt.
      * destruct Hr as [-> Hr]. split; [reflexivity|].
        intros [|i] kv Hnth.
        -- cbn in Hnth. injection Hnth as <-. exact Hexp.
        -- cbn in Hnth. specialize (Hr i kv Hnth).
           cbn [clock_reads tick ticks] in Hr.
           replace (S i + clock_reads s)%nat
             with (i + (1 + clock_reads s))%nat by lia. exact Hr.
Qed.

Lemma auth_select_key_unfold env expired s :
  auth_select_key env expired s =
  match (if expired then next_expired env (keys s) s else (Ok None, s)) with
  | (Ok (Some k), s1) =>
      if String.eqb k EmptyString then generate_key env expired s1 else (Ok k, s1)
  | (Ok None, s1) => generate_key env expired s1
  | (Raise e, s1) => (Raise e, s1)
  end.
Proof.
  unfold auth_select_key, bind at 1. destruct expired.
  - unfold bind at 1, get_keys.
    destruct (next_expired env (keys s) s) as [[[k|]|e] s1]; try reflexivity.
    destruct (String.eqb k EmptyString); reflexivity.
  - reflexivity.
Qed.

(** The key chosen by [auth_endpoint] is in the dictionary when the choice
    is made. *)
Lemma auth_select_key_stored env expired s :
  exists kid entry s1,
    auth_select_key env expired s = (Ok kid, s1) /\
    dict_get kid (keys s1) = Some entry.
Proof.
  rewrite auth_select_key_unfold.
  assert (Hgen : forall s0, exists kid entry s1,
             generate_key env expired s0 = (Ok kid, s1) /\
             dict_get kid (keys s1) = Some entry).
  { intro s0. rewrite generate_key_run. cbv zeta.
    eexists _, _, _. split; [reflexivity|].
    cbn [keys with_keys]. apply dict_get_set_same. }
  destruct expired; [|apply Hgen].
  destruct (next_expired_run env (keys s) s) as [r [m [Hrun [_ Hr]]]].
  rewrite Hrun. destruct r as [k|]; [|apply Hgen].
  destruct (String.eqb k EmptyString); [apply Hgen|].
  destruct Hr as [key [i [_ [Hin _]]]].
  destruct (in_dict_get _ _ _ Hin) as [entry Hget].
  exists k, entry, (ticks m s). split; [reflexivity|exact Hget].
Qed.

(** ** [auth_endpoint]: the token *)

Lemma auth_issue_run env expired kid entry s :
  dict_get kid (keys s) = Some entry ->
  auth_issue env expired kid s =
  let i := (if expired then 1 else 0)%nat in
  let t_exp := clock env (i + clock_reads s) in
  let t_iat := clock env (S i + clock_reads s) in
  let exp_time :=
    if expired then t_exp - timedelta_minutes 5
    else t_exp + timedelta_minutes 5 in
  (Ok (reply_of env (private_key entry) (token_header kid)
                (token_claims (timegm t_iat) (timegm exp_time))),
   ticks (S (S i)) s).
Proof.
  intro Hget. unfold auth_issue, bind at 1, keys_getitem, bind at 1, get_keys.
  rewrite Hget. unfold ret at 1.
  destruct expired; cbv zeta;
    unfold bind, datetime_now, ret, try_except, jwt_encode, lift, reply_of;
    cbn [fold_left dict_set fst snd map jwt_time_claim String.eqb Ascii.eqb
         Bool.eqb orb clock_reads tick ticks Nat.add];
    unfold token_header, token_claims;
    destruct (rs256_sign env (private_key entry) _ _);
    reflexivity.
Qed.

Lemma auth_endpoint_unfold env args s :
  auth_endpoint env args s =
  match auth_select_key env (dict_contains "expired" args) s with
  | (Ok kid, s1) => auth_issue env (dict_contains "expired" args) kid s1
  | (Raise e, s1) => (Raise e, s1)
  end.
Proof.
  set (expired := dict_contains "expired" args).
  transitivity (bind (auth_select_key env expired) (auth_issue env expired) s).
  - unfold auth_select_key. rewrite <- bind_assoc_run. reflexivity.
  - unfold bind.
    destruct (auth_select_key env expired s) as [[kid|e] s1]; reflexivity.
Qed.

Lemma publishes_kids items jwks :
  Forall2 publishes items jwks -> map jwk_kid jwks = dict_keys items.
Proof.
  induction 1 as [|item j items jwks Hp _ IH]; [reflexivity|].
  cbn. rewrite IH. destruct Hp as (_ & _ & _ & -> & _). reflexivity.
Qed.

Lemma store_ok_encodable d (p : string * KeyEntry -> bool) :
  store_ok d ->
  Forall (fun item => 0 <= pub_n (public_key (snd item)) /\
                      0 <= pub_e (public_key (snd item))) (filter p d).
Proof.
  intros [_ Hall]. apply Forall_forall. intros item Hin.
  apply filter_In in Hin. destruct Hin as [Hin _].
  rewrite Forall_forall in Hall. destruct (Hall item Hin) as [_ [Hn He]].
  lia.
Qed.

Lemma base64url_encode_inv v t :
  base64url_encode v = Ok t ->
  0 <= v /\ decode_int t = Some v /\
  Forall (fun c => urlsafe_char c = true /\ c <> pad_char)
         (list_ascii_of_string t).
Proof.
  intro H.
  assert (Hv : 0 <= v).
  { unfold base64url_encode, to_bytes in H.
    destruct (Z.ltb_spec v 0); [discriminate|assumption]. }
  split; [exact Hv|]. split.
  - unfold decode_int. rewrite (base64url_decode_encode v t Hv H). cbn.
    rewrite from_bytes_to_bytes by assumption. reflexivity.
  - rewrite base64url_encode_value in H by assumption. injection H as <-.
    unfold decode_utf8. rewrite list_ascii_of_string_of_list_ascii.
    apply urlsafe_chars_of_sextets, b64_sextets_range, big_endian_bytes.
Qed.

(** One run of [auth_endpoint]: a key is chosen, it is in the dictionary,
    and the reply is built from two successive clock readings. *)
Lemma auth_endpoint_run env args s :
  let expired := dict_contains "expired" args in
  exists kid entry s1 j,
    auth_select_key env expired s = (Ok kid, s1) /\
    dict_get kid (keys s1) = Some entry /\
    auth_endpoint env args s =
    (Ok (reply_of env (private_key entry) (token_header kid)
           (token_claims
              (timegm (clock env (S j)))
              (timegm (if expired
                       then clock env j - timedelta_minutes 5
                       else clock env j + timedelta_minutes 5)))),
     ticks (if expired then 3 else 2) s1).
Proof.
  intro expired.
  destruct (auth_select_key_stored env expired s)
    as [kid [entry [s1 [Hsel Hget]]]].
  exists kid, entry, s1, ((if expired then 1 else 0) + clock_reads s1)%nat.
  split; [exact Hsel|]. split; [exact Hget|].
  rewrite auth_endpoint_unfold. fold expired. rewrite Hsel.
  rewrite (auth_issue_run env expired kid entry s1 Hget).
  destruct expired; reflexivity.
Qed.

Lemma reply_of_token env key header claims resp tok :
  resp = reply_of env key header claims -> body resp = JsonToken tok ->
  status resp = 201 /\ jwt_header tok = header /\ jwt_claims tok = claims /\
  rs256_sign env key header claims = Ok (jwt_signature tok).
Proof.
  unfold reply_of. intros -> Hbody.
  destruct (rs256_sign env key header claims) as [sig|e];
    cbn in Hbody; [|discriminate].
  injection Hbody as <-. auto.
Qed.

(** ** Routing *)

Lemma dispatch_get_jwks env args s :
  dispatch env {| req_method := "GET"; req_path := jwks_path;
                  req_args := args |} s =
  match jwks_endpoint env s with
  | (Ok resp, s') => (resp, s')
  | (Raise _, s') => ({| status := 500; body := FrameworkPage |}, s')
  end.
Proof. reflexivity. Qed.

Lemma dispatch_head_jwks env args s :
  dispatch env (request "HEAD" jwks_path args) s =
  match jwks_endpoint env s with
  | (Ok resp, s') => ({| status := status resp; body := EmptyBody |}, s')
  | (Raise _, s') => ({| status := 500; body := EmptyBody |}, s')
  end.
Proof.
  change (dispatch env (request "HEAD" jwks_path args) s) with
    (let reply :=
       match jwks_endpoint env s with
       | (Ok resp, s') => (resp, s')
       | (Raise _, s') => ({| status := 500; body := FrameworkPage |}, s')
       end in
     ({| status := status (fst reply); body := EmptyBody |}, snd reply)).
  destruct (jwks_endpoint env s) as [[resp|e] s']; reflexivity.
Qed.

Lemma dispatch_post_auth env args s :
  dispatch env (request "POST" auth_path args) s =
  match auth_endpoint env args s with
  | (Ok resp, s') => (resp, s')
  | (Raise _, s') => ({| status := 500; body := FrameworkPage |}, s')
  end.
Proof. reflexivity. Qed.

Lemma dispatch_unlisted env m args s :
  has_method m ["GET"; "HEAD"; "OPTIONS"; "PUT"; "POST"; "DELETE"; "PATCH"]
  = false ->
  dispatch env (request m jwks_path args) s =
  ({| status := 405; body := FrameworkPage |}, s) /\
  dispatch env (request m auth_path args) s =
  ({| status := 405; body := FrameworkPage |}, s).
Proof.
  intro H. cbn in H. repeat (apply orb_false_elim in H; destruct H as [? H]).
  unfold dispatch, request. cbn.
  repeat match goal with
         | Heq : String.eqb m _ = false |- _ => rewrite !Heq; clear Heq
         end.
  cbn. split; reflexivity.
Qed.

Lemma jwks_status_not_405 env s : status (fst (
  match jwks_endpoint env s with
  | (Ok resp, s') => (resp, s')
  | (Raise _, s') => ({| status := 500; body := FrameworkPage |}, s')
  end)) <> 405.
Proof.
  destruct (jwks_endpoint env s) as [[resp|e] s'] eqn:Hrun; cbn;
    [|discriminate].
  destruct (jwks_endpoint_inv env s resp s' Hrun) as [jwks [-> _]].
  discriminate.
Qed.

Lemma auth_status_not_405 env args s :
  status (fst (dispatch env (request "POST" auth_path args) s)) <> 405.
Proof.
  rewrite dispatch_post_auth.
  destruct (auth_endpoint_run env args s)
    as [kid [entry [s1 [j [_ [_ Hrun]]]]]].
  rewrite Hrun. cbn [fst]. unfold reply_of.
  destruct (rs256_sign env _ _ _); discriminate.
Qed.

(** ** The store invariant

    [store_ok] holds of the empty dictionary and is kept by every request,
    so it holds whenever a handler runs. *)

Lemma store_ok_nil : store_ok [].
Proof. split; constructor. Qed.

Lemma dict_set_forall {V : Type} (P : string * V -> Prop) k v (d : dict V) :
  Forall P d -> P (k, v) -> Forall P (dict_set k v d).
Proof.
  intros Hd Hkv. induction Hd as [|[k' v'] d Hx Hd IH]; cbn.
  - constructor; [exact Hkv|constructor].
  - destruct (String.eqb_spec k k') as [<-|Hne].
    + constructor; [exact Hkv|exact Hd].
    + constructor; [exact Hx|exact IH].
Qed.

Lemma store_ok_filter d (p : string * KeyEntry -> bool) :
  store_ok d -> store_ok (filter p d).
Proof.
  intros [Hnd Hall]. split; [apply nodup_keys_filter, Hnd|].
  apply Forall_forall. intros item Hin. apply filter_In in Hin.
  rewrite Forall_forall in Hall. apply Hall, Hin.
Qed.

Lemma generate_key_store_ok env expired s :
  env_ok env -> store_ok (keys s) ->
  store_ok (keys (snd (generate_key env expired s))).
Proof.
  intros [Huuid Hrsa] [Hnd Hall]. rewrite generate_key_run. cbv zeta.
  cbn [snd keys with_keys]. split; [apply dict_set_nodup, Hnd|].
  apply dict_set_forall; [exact Hall|]. cbn [fst snd public_key].
  split; [apply Huuid|].
  destruct (Hrsa 65537 2048 (rsa_draws s)) as [He Hn].
  unfold rsa_ok. rewrite He. lia.
Qed.

Lemma jwks_endpoint_store_ok env s :
  store_ok (keys s) -> store_ok (keys (snd (jwks_endpoint env s))).
Proof.
  intro Hok. pose proof Hok as [Hnd _].
  destruct (jwks_endpoint_run env s Hnd (store_ok_encodable _ _ Hok))
    as [jwks [Hrun _]].
  rewrite Hrun. cbn [snd keys with_keys]. apply store_ok_filter, Hok.
Qed.

Lemma auth_endpoint_store_ok env args s :
  env_ok env -> store_ok (keys s) ->
  store_ok (keys (snd (auth_endpoint env args s))).
Proof.
  intros Henv Hok.
  destruct (auth_endpoint_run env args s)
    as [kid [entry [s1 [j [Hsel [_ Hrun]]]]]].
  rewrite Hrun. cbn [snd].
  assert (Hs1 : store_ok (keys s1)).
  { rewrite auth_select_key_unfold in Hsel.
    assert (Hgen : forall m kid' s2,
               generate_key env (dict_contains "expired" args) (ticks m s) =
               (Ok kid', s2) -> store_ok (keys s2)).
    { intros m kid' s2 Hg.
      change s2 with (snd (Ok kid', s2)). rewrite <- Hg.
      apply generate_key_store_ok; [exact Henv|exact Hok]. }
    destruct (dict_contains "expired" args).
    - destruct (next_expired_run env (keys s) s) as [r [m [Hrun' _]]].
      rewrite Hrun' in Hsel. destruct r as [k|].
      + destruct (String.eqb k EmptyString); [apply (Hgen _ _ _ Hsel)|].
        injection Hsel as _ <-. exact Hok.
      + apply (Hgen _ _ _ Hsel).
    - apply (Hgen 0%nat kid s1).
      change (ticks 0 s) with (with_keys (keys s) s).
      rewrite with_keys_same. exact Hsel. }
  destruct (dict_contains "expired" args); exact Hs1.
Qed.

Lemma dispatch_store_ok env req s :
  env_ok env -> store_ok (keys s) ->
  store_ok (keys (snd (dispatch env req s))).
Proof.
  intros Henv Hok. unfold dispatch.
  match goal with
  | |- context [if ?c then (_, snd ?r) else ?r] =>
      assert (Hr : store_ok (keys (snd r)));
      [|destruct c; exact Hr]
  end.
  destruct (find _ url_map) as [r|].
  - destruct (provide_automatic_options r && _); [exact Hok|].
    destruct (rule_endpoint r); cbn [view].
    + pose proof (jwks_endpoint_store_ok env s Hok) as H.
      destruct (jwks_endpoint env s) as [[resp|e] s']; exact H.
    + pose proof (auth_endpoint_store_ok env (req_args req) s Henv Hok) as H.
      destruct (auth_endpoint env (req_args req) s) as [[resp|e] s']; exact H.
    + exact Hok.
    + exact Hok.
  - destruct (existsb _ url_map); exact Hok.
Qed.

(** The invariant holds after any sequence of requests that starts with an
    empty dictionary. *)
Lemma serve_store_ok env reqs s :
  env_ok env -> store_ok (keys s) -> store_ok (keys (snd (serve env reqs s))).
Proof.
  intros Henv. revert s. induction reqs as [|req reqs IH]; intros s Hok.
  - exact Hok.
  - cbn [serve].
    pose proof (dispatch_store_ok env req s Henv Hok) as H.
    destruct (dispatch env req s) as [resp s1]. cbn [snd] in H.
    specialize (IH s1 H).
    destruct (serve env reqs s1) as [resps s2]. exact IH.
Qed.

(** ** The sample environments and stores *)

Lemma env_second_boundary_monotone : monotone env_second_boundary.
Proof.
  intros i j Hij. unfold env_second_boundary, sample_env. cbn [clock]. lia.
Qed.

Lemma sample_env_ok clock : env_ok (sample_env clock).
Proof.
  split.
  - intro i. discriminate.
  - intros e bits i. unfold sample_env.
    cbn [rsa_generate_private_key rsa_public pub_e pub_n].
    split; [reflexivity|].
    pose proof (Z.pow_nonneg 2 (bits - 1) ltac:(lia)). lia.
Qed.

Lemma store_mixed_ok : store_ok store_mixed.
Proof.
  split.
  - repeat constructor; cbn; intuition discriminate.
  - repeat constructor; cbn; try discriminate; lia.
Qed.

(* ===================================================================== *)
(** * Part III: the properties of the specification                       *)
(* ===================================================================== *)

(** ** Discovery *)

(** C1: for every store and every time [now] read by the request, the
    discovery operation answers 200; the store it leaves is the old one
    without the keys whose expiry is before [now]; the published list is the
    list of the keys left, so a key identifier is published exactly when its
    key has [now <= expiry]; and no key with [expiry < now] is left. *)
Theorem jwks_endpoint_validity_window env s :
  store_ok (keys s) ->
  let now := clock env (clock_reads s) in
  exists jwks s',
    jwks_endpoint env s =
    (Ok {| status := 200; body := JsonKeys jwks |}, s') /\
    keys s' = filter (fun item => now <=? expiry (snd item)) (keys s) /\
    Forall2 publishes (keys s') jwks /\
    (forall kid, In kid (map jwk_kid jwks) <->
                 exists key, In (kid, key) (keys s) /\ now <= expiry key) /\
    (forall kid key, In (kid, key) (keys s') -> ~ expiry key < now).
Proof.
  intros Hok now. pose proof Hok as [Hnd _].
  destruct (jwks_endpoint_run env s Hnd (store_ok_encodable _ _ Hok))
    as [jwks [Hrun Hpub]].
  fold now in Hrun, Hpub.
  exists jwks, (with_keys (filter (fun item => now <=? expiry (snd item))
                             (keys s)) (tick s)).
  cbn [keys with_keys]. repeat split; try assumption.
  - rewrite (publishes_kids _ _ Hpub). unfold dict_keys. intro Hin.
    apply in_map_iff in Hin. destruct Hin as [[k key] [<- Hin]].
    apply filter_In in Hin. destruct Hin as [Hin Hle].
    exists key. split; [exact Hin|]. apply Z.leb_le, Hle.
  - intros [key [Hin Hle]]. rewrite (publishes_kids _ _ Hpub).
    unfold dict_keys. apply in_map_iff. exists (kid, key).
    split; [reflexivity|]. apply filter_In. split; [exact Hin|].
    apply Z.leb_le, Hle.
  - intros kid key Hin Hlt. apply filter_In in Hin.
    destruct Hin as [_ Hle]. apply Z.leb_le in Hle. cbn in Hle. lia.
Qed.

Lemma jwks_endpoint_validity_window_witness :
  store_ok (keys (state_of store_mixed)) /\
  exists jwks s',
    jwks_endpoint env_1000 (state_of store_mixed) =
    (Ok {| status := 200; body := JsonKeys jwks |}, s') /\
    keys s' = filter (fun item => 1000 <=? expiry (snd item)) store_mixed /\
    Forall2 publishes (keys s') jwks /\
    (forall kid, In kid (map jwk_kid jwks) <->
                 exists key, In (kid, key) store_mixed /\ 1000 <= expiry key) /\
    (forall kid key, In (kid, key) (keys s') -> ~ expiry key < 1000).
Proof.
  split; [exact store_mixed_ok|].
  exact (jwks_endpoint_validity_window env_1000 (state_of store_mixed)
           store_mixed_ok).
Defined.

(** C9 as stated fails: a key whose expiry is exactly the time of the
    request is published. *)

Lemma boundary_key_not_excluded :
  ~ (forall kid key,
        In (kid, key) store_boundary ->
        expiry key = clock env_1000 (clock_reads (state_of store_boundary)) ->
        forall jwks s',
          jwks_endpoint env_1000 (state_of store_boundary) =
          (Ok {| status := 200; body := JsonKeys jwks |}, s') ->
          ~ In kid (map jwk_kid jwks)).
Proof.
  intro H.
  refine (H "k" (sample_key 3233 1000) (or_introl eq_refl) eq_refl
            [jwk_boundary]
            (with_keys store_boundary (tick (state_of store_boundary))) _ _).
  - vm_compute. reflexivity.
  - left. reflexivity.
Qed.

(** C9, amended: at the boundary instant a key counts as valid.  A stored key
    whose expiry equals the time read by the discovery request stays in the
    store and its identifier is in the published list. *)
Theorem boundary_key_is_published env s kid key :
  store_ok (keys s) -> In (kid, key) (keys s) ->
  expiry key = clock env (clock_reads s) ->
  exists jwks s',
    jwks_endpoint env s =
    (Ok {| status := 200; body := JsonKeys jwks |}, s') /\
    In kid (map jwk_kid jwks) /\ In (kid, key) (keys s').
Proof.
  intros Hok Hin Hexp. pose proof Hok as [Hnd _].
  destruct (jwks_endpoint_run env s Hnd (store_ok_encodable _ _ Hok))
    as [jwks [Hrun Hpub]].
  assert (Hkept : In (kid, key)
                    (filter (fun item => clock env (clock_reads s) <=?
                                         expiry (snd item)) (keys s))).
  { apply filter_In. split; [exact Hin|]. cbn. apply Z.leb_le. lia. }
  eexists jwks, _. split; [exact Hrun|]. cbn [keys with_keys].
  split; [|exact Hkept].
  rewrite (publishes_kids _ _ Hpub). unfold dict_keys.
  apply in_map_iff. exists (kid, key). split; [reflexivity|exact Hkept].
Qed.

Lemma boundary_key_is_published_witness :
  store_ok (keys (state_of store_boundary)) /\
  In ("k", sample_key 3233 1000) (keys (state_of store_boundary)) /\
  expiry (sample_key 3233 1000) =
  clock env_1000 (clock_reads (state_of store_boundary)) /\
  exists jwks s',
    jwks_endpoint env_1000 (state_of store_boundary) =
    (Ok {| status := 200; body := JsonKeys jwks |}, s') /\
    In "k" (map jwk_kid jwks) /\ In ("k", sample_key 3233 1000) (keys s').
Proof.
  assert (Hok : store_ok (keys (state_of store_boundary))).
  { split.
    - repeat constructor; cbn; intuition discriminate.
    - repeat constructor; cbn; try discriminate; lia. }
  split; [exact Hok|]. split; [left; reflexivity|]. split; [reflexivity|].
  exact (boundary_key_is_published env_1000 (state_of store_boundary) "k"
           (sample_key 3233 1000) Hok (or_introl eq_refl) eq_refl).
Defined.

(** C10: when every stored key has expired, and in particular when the
    store is empty, a GET request to the discovery path is answered 200 with
    the body [{"keys": []}], and the store is left empty. *)
Theorem empty_key_set_is_served env s args :
  NoDup (dict_keys (keys s)) ->
  (forall kid key, In (kid, key) (keys s) ->
                   expiry key < clock env (clock_reads s)) ->
  dispatch env (request "GET" jwks_path args) s =
  ({| status := 200; body := JsonKeys [] |}, with_keys [] (tick s)).
Proof.
  intros Hnd Hall. unfold request. rewrite dispatch_get_jwks.
  assert (Hkept : filter (fun item => clock env (clock_reads s) <=?
                                      expiry (snd item)) (keys s) = []).
  { apply filter_none. intros [kid key] Hin.
    specialize (Hall kid key Hin). apply Z.leb_gt. exact Hall. }
  destruct (jwks_endpoint_run env s Hnd) as [jwks [Hrun Hpub]].
  { rewrite Hkept. constructor. }
  rewrite Hkept in Hrun, Hpub. inversion Hpub; subst.
  rewrite Hrun. reflexivity.
Qed.

Lemma empty_key_set_is_served_witness :
  dispatch env_1000 (request "GET" jwks_path []) (state_of []) =
  ({| status := 200; body := JsonKeys [] |},
   with_keys [] (tick (state_of []))) /\
  dispatch env_1000 (request "GET" jwks_path []) (state_of store_expired) =
  ({| status := 200; body := JsonKeys [] |},
   with_keys [] (tick (state_of store_expired))).
Proof.
  split.
  - apply (empty_key_set_is_served env_1000 (state_of []) []).
    + constructor.
    + intros kid key [].
  - apply (empty_key_set_is_served env_1000 (state_of store_expired) []).
    + repeat constructor. intros [].
    + intros kid key [[= <- <-]|[]]. cbn. lia.
Defined.

(** ** Encoding of the key components *)

(** C5 as stated fails at zero: [(0).bit_length()] is 0, so zero is turned
    into no byte at all, not into a single zero byte, and its encoding is
    the empty string rather than [AA]. *)
Lemma zero_encodes_as_no_byte :
  ~ (to_bytes 0 ((bit_length 0 + 7) / 8) = Ok [0] /\
     base64url_encode 0 = Ok "AA").
Proof. intros [H _]. vm_compute in H. discriminate H. Qed.

(** C5, amended: for every non-negative integer the published encoding is
    the unpadded URL-safe base64 text of the integer's big-endian bytes in
    minimal number: the bytes read back as the integer, no shorter byte
    string does, the first byte is never zero, the text decodes to these
    bytes, has the length of an unpadded encoding, and is made of URL-safe
    characters without [=].  Zero has no byte and is encoded as the empty
    string. *)
Theorem base64url_encode_minimal_big_endian v :
  0 <= v ->
  exists bytes_value text,
    to_bytes v ((bit_length v + 7) / 8) = Ok bytes_value /\
    base64url_encode v = Ok text /\
    text = decode_utf8 (rstrip pad_char (urlsafe_b64encode bytes_value)) /\
    Forall is_byte bytes_value /\
    from_bytes bytes_value = v /\
    (forall bs, Forall is_byte bs -> from_bytes bs = v ->
                (List.length bytes_value <= List.length bs)%nat) /\
    (forall b rest, bytes_value = b :: rest -> b <> 0) /\
    (v = 0 <-> bytes_value = []) /\
    (v = 0 <-> text = EmptyString) /\
    base64url_decode text = Some bytes_value /\
    Z.of_nat (String.length text) =
    (4 * Z.of_nat (List.length bytes_value) + 2) / 3 /\
    Forall (fun c => urlsafe_char c = true /\ c <> pad_char)
           (list_ascii_of_string text).
Proof.
  intro Hv.
  set (count := (bit_length v + 7) / 8).
  assert (Hcount : 0 <= count).
  { apply Z.div_pos; [|lia]. pose proof (bit_length_nonneg v). lia. }
  set (bs := big_endian (Z.to_nat count) v).
  pose proof (base64url_encode_value v Hv) as Henc. fold count bs in Henc.
  assert (Hbytes : v = 0 <-> bs = []).
  { split.
    - intros ->. reflexivity.
    - intro Hnil. pose proof (from_bytes_to_bytes v Hv) as Hfrom.
      fold count bs in Hfrom. rewrite Hnil in Hfrom. cbn in Hfrom. lia. }
  exists bs, (decode_utf8 (map urlsafe_translation
                             (map b64_char (b64_sextets bs)))).
  split; [apply to_bytes_minimal, Hv|].
  split; [exact Henc|].
  split; [rewrite rstrip_urlsafe_b64encode by apply big_endian_bytes;
          reflexivity|].
  split; [apply big_endian_bytes|].
  split; [apply from_bytes_to_bytes, Hv|].
  split.
  { intros bs' Hbs' Hfrom. subst bs. rewrite big_endian_length.
    destruct (Z.eq_dec v 0) as [->|Hne]; [cbn; lia|].
    pose proof (from_bytes_bound bs' Hbs') as Hb. rewrite Hfrom in Hb.
    pose proof (byte_count_lower v ltac:(lia)) as Hlow. fold count in Hlow.
    destruct (Nat.le_gt_cases (Z.to_nat count) (List.length bs'))
      as [Hle|Hgt]; [exact Hle|exfalso].
    assert (Hpow : 256 ^ Z.of_nat (List.length bs') <= 256 ^ (count - 1)).
    { apply Z.pow_le_mono_r; lia. }
    lia. }
  split.
  { intros b rest Hcons Hb. subst b.
    destruct (Z.eq_dec v 0) as [->|Hne]; [discriminate Hcons|].
    pose proof (byte_count_lower v ltac:(lia)) as Hlow. fold count in Hlow.
    pose proof (byte_count_upper v Hv) as Hup. fold count in Hup.
    assert (Hc : 1 <= count).
    { destruct (Z.eq_dec count 0) as [Hz|]; [|lia].
      rewrite Hz in Hup. cbn in Hup. lia. }
    destruct (big_endian_head (Z.to_nat (count - 1)) v) as [t Ht].
    replace (S (Z.to_nat (count - 1))) with (Z.to_nat count) in Ht by lia.
    fold bs in Ht. rewrite Ht in Hcons. injection Hcons as Hhead _.
    rewrite Z2Nat.id in Hhead by lia.
    assert (Hp : 0 < 256 ^ (count - 1)) by (apply Z.pow_pos_nonneg; lia).
    assert (Hq : 1 <= v / 256 ^ (count - 1) < 256).
    { split.
      - apply Z.div_le_lower_bound; lia.
      - apply Z.div_lt_upper_bound; [lia|].
        replace (256 ^ (count - 1) * 256) with (256 ^ count); [exact Hup|].
        replace count with (Z.succ (count - 1)) at 1 by lia.
        rewrite Z.pow_succ_r by lia. lia. }
    rewrite Z.mod_small in Hhead by lia. lia. }
  split; [exact Hbytes|].
  split.
  { rewrite Hbytes. split.
    - intros ->. reflexivity.
    - intro Htext. unfold decode_utf8 in Htext.
      apply (f_equal list_ascii_of_string) in Htext.
      rewrite list_ascii_of_string_of_list_ascii in Htext.
      change (list_ascii_of_string EmptyString) with (@nil ascii) in Htext.
      apply map_eq_nil, map_eq_nil, b64_sextets_nil in Htext. exact Htext. }
  split; [apply (base64url_decode_encode v _ Hv Henc)|].
  split.
  { unfold decode_utf8. rewrite decode_length, !length_map.
    apply b64_sextets_length. }
  apply (base64url_encode_inv v _ Henc).
Qed.

Lemma base64url_encode_minimal_big_endian_witness :
  exists bytes_value text,
    to_bytes 65537 ((bit_length 65537 + 7) / 8) = Ok bytes_value /\
    base64url_encode 65537 = Ok text /\
    text = decode_utf8 (rstrip pad_char (urlsafe_b64encode bytes_value)) /\
    Forall is_byte bytes_value /\
    from_bytes bytes_value = 65537 /\
    (forall bs, Forall is_byte bs -> from_bytes bs = 65537 ->
                (List.length bytes_value <= List.length bs)%nat) /\
    (forall b rest, bytes_value = b :: rest -> b <> 0) /\
    (65537 = 0 <-> bytes_value = []) /\
    (65537 = 0 <-> text = EmptyString) /\
    base64url_decode text = Some bytes_value /\
    Z.of_nat (String.length text) =
    (4 * Z.of_nat (List.length bytes_value) + 2) / 3 /\
    Forall (fun c => urlsafe_char c = true /\ c <> pad_char)
           (list_ascii_of_string text).
Proof. apply (base64url_encode_minimal_big_endian 65537). lia. Defined.

(** C6: for every key that the discovery endpoint publishes, decoding the
    [n] and [e] fields as base64url and reading the bytes as big-endian
    integers gives the modulus and the exponent of the stored public key
    with that identifier, and neither field contains the padding
    character. *)
Theorem published_components_round_trip env s resp s' jwks j :
  jwks_endpoint env s = (Ok resp, s') ->
  body resp = JsonKeys jwks ->
  In j jwks ->
  exists key,
    In (jwk_kid j, key) (keys s) /\
    decode_int (jwk_n j) = Some (pub_n (public_key key)) /\
    decode_int (jwk_e j) = Some (pub_e (public_key key)) /\
    ~ In pad_char (list_ascii_of_string (jwk_n j)) /\
    ~ In pad_char (list_ascii_of_string (jwk_e j)).
Proof.
  intros Hrun Hbody Hin.
  destruct (jwks_endpoint_inv env s resp s' Hrun) as [jwks' [-> [Hincl Hpub]]].
  cbn in Hbody. injection Hbody as ->.
  assert (Hitem : exists item, In item (keys s') /\ publishes item j).
  { clear - Hpub Hin. induction Hpub as [|item j' items jwks Hp _ IH].
    - destruct Hin.
    - destruct Hin as [->|Hin].
      + exists item. split; [left; reflexivity|exact Hp].
      + destruct (IH Hin) as [it [Hit Hpj]]. exists it.
        split; [right; exact Hit|exact Hpj]. }
  destruct Hitem as [[kid key] [Hstored (_ & _ & _ & Hkid & Hn & He)]].
  cbn [fst snd] in Hkid, Hn, He.
  apply base64url_encode_inv in Hn. destruct Hn as (_ & Hn & Hnc).
  apply base64url_encode_inv in He. destruct He as (_ & He & Hec).
  exists key. rewrite Hkid. split; [apply Hincl, Hstored|].
  rewrite Forall_forall in Hnc, Hec.
  repeat split; try assumption.
  - intro Hp. apply (proj2 (Hnc _ Hp)). reflexivity.
  - intro Hp. apply (proj2 (Hec _ Hp)). reflexivity.
Qed.

Lemma published_components_round_trip_witness :
  exists key,
    In (jwk_kid jwk_boundary, key) (keys (state_of store_boundary)) /\
    decode_int (jwk_n jwk_boundary) = Some (pub_n (public_key key)) /\
    decode_int (jwk_e jwk_boundary) = Some (pub_e (public_key key)) /\
    ~ In pad_char (list_ascii_of_string (jwk_n jwk_boundary)) /\
    ~ In pad_char (list_ascii_of_string (jwk_e jwk_boundary)).
Proof.
  apply (published_components_round_trip env_1000 (state_of store_boundary)
           {| status := 200; body := JsonKeys [jwk_boundary] |}
           (with_keys store_boundary (tick (state_of store_boundary)))
           [jwk_boundary] jwk_boundary).
  - vm_compute. reflexivity.
  - reflexivity.
  - left. reflexivity.
Defined.

(** ** Key insertion *)

(** C2 as stated fails: when the generated identifier is already in the
    store, [generate_key] does not fail, and the entry under that identifier
    no longer holds the old key material. *)

Lemma duplicate_id_overwrites :
  dict_contains (sample_uuid 0) (keys (state_of store_taken)) = true /\
  fst (generate_key env_1000 false (state_of store_taken)) =
  Ok (sample_uuid 0) /\
  dict_get (sample_uuid 0)
    (keys (snd (generate_key env_1000 false (state_of store_taken)))) <>
  dict_get (sample_uuid 0) (keys (state_of store_taken)).
Proof.
  split; [reflexivity|]. split; [reflexivity|].
  rewrite generate_key_run. cbv zeta.
  cbn [snd keys with_keys]. rewrite dict_get_set_same.
  intro H. vm_compute in H. discriminate H.
Qed.

(** C2, amended: a key insertion never fails.  [generate_key] stores the new
    key under its identifier: an entry already stored under the same
    identifier is replaced by the new key, in place; every other entry is
    unchanged; an identifier that was not stored is appended. *)
Theorem generate_key_stores_under_kid env expired s :
  exists kid entry s',
    generate_key env expired s = (Ok kid, s') /\
    kid = uuid4 env (uuid_draws s) /\
    private_key entry =
    rsa_generate_private_key env 65537 2048 (rsa_draws s) /\
    public_key entry = rsa_public (private_key entry) /\
    keys s' = dict_set kid entry (keys s) /\
    dict_get kid (keys s') = Some entry /\
    (forall k, k <> kid -> dict_get k (keys s') = dict_get k (keys s)) /\
    (dict_contains kid (keys s) = true ->
     dict_keys (keys s') = dict_keys (keys s)) /\
    (dict_contains kid (keys s) = false ->
     keys s' = keys s ++ [(kid, entry)]).
Proof.
  rewrite generate_key_run. cbv zeta.
  set (priv := rsa_generate_private_key env 65537 2048 (rsa_draws s)).
  set (t := if expired then _ else _).
  exists (uuid4 env (uuid_draws s)),
         {| private_key := priv; public_key := rsa_public priv; expiry := t |}.
  eexists. split; [reflexivity|].
  cbn [keys with_keys private_key public_key].
  do 4 (split; [reflexivity|]). repeat split.
  - apply dict_get_set_same.
  - intros k Hk. apply dict_get_set_other, Hk.
  - intro Hc. rewrite dict_keys_set, Hc. reflexivity.
  - intro Hc. apply dict_set_fresh, Hc.
Qed.

(** ** Token issuance *)

(** C3: the choice of the signing key.  The [expired] path is taken exactly
    when the query string has an [expired] parameter, whatever its value.
    With all clock readings of the search between [lo] and [hi] (a single
    [now] when [lo = hi]): if some stored key has expired, the reply is
    signed with a stored expired key and neither the store nor the key
    generator is touched; if no stored key has expired, a new key with an
    expiry five minutes in the past is stored and used.  Without the
    parameter a new key that expires in one hour is stored and used. *)
Theorem auth_key_selection env args s lo hi :
  store_ok (keys s) ->
  (forall i, (i < List.length (keys s))%nat ->
             lo <= clock env (i + clock_reads s) <= hi) ->
  let expired := dict_contains "expired" args in
  let new_kid := uuid4 env (uuid_draws s) in
  let new_key := rsa_generate_private_key env 65537 2048 (rsa_draws s) in
  (expired = true <-> exists v, In ("expired", v) args) /\
  exists resp s',
    auth_endpoint env args s = (Ok resp, s') /\
    (expired = true ->
     (exists kid key, In (kid, key) (keys s) /\ expiry key < lo) ->
     keys s' = keys s /\ rsa_draws s' = rsa_draws s /\
     uuid_draws s' = uuid_draws s /\
     exists kid key,
       In (kid, key) (keys s) /\ expiry key < hi /\
       issued_with env kid key resp) /\
    (expired = true ->
     (forall kid key, In (kid, key) (keys s) -> hi <= expiry key) ->
     exists entry,
       private_key entry = new_key /\
       public_key entry = rsa_public new_key /\
       expiry entry =
       clock env (S (List.length (keys s) + clock_reads s)) -
       timedelta_minutes 5 /\
       keys s' = dict_set new_kid entry (keys s) /\
       issued_with env new_kid entry resp) /\
    (expired = false ->
     exists entry,
       private_key entry = new_key /\
       public_key entry = rsa_public new_key /\
       expiry entry = clock env (clock_reads s) + timedelta_hours 1 /\
       keys s' = dict_set new_kid entry (keys s) /\
       issued_with env new_kid entry resp).
Proof.
  intros [Hnd Hall] Hclock expired new_kid new_key. split.
  { unfold expired, dict_contains. rewrite existsb_exists. split.
    - intros [[k v] [Hin Heq]]. apply String.eqb_eq in Heq. cbn in Heq.
      subst k. exists v. exact Hin.
    - intros [v Hin]. exists ("expired", v). split; [exact Hin|reflexivity]. }
  rewrite auth_endpoint_unfold, auth_select_key_unfold. fold expired.
  assert (Hfresh : forall m,
    exists resp s',
      match generate_key env expired (ticks m s) with
      | (Ok kid, s1) => auth_issue env expired kid s1
      | (Raise e, s1) => (Raise e, s1)
      end = (Ok resp, s') /\
      exists entry,
        private_key entry = new_key /\
        public_key entry = rsa_public new_key /\
        expiry entry =
        (if expired
         then clock env (S (m + clock_reads s)) - timedelta_minutes 5
         else clock env (m + clock_reads s) + timedelta_hours 1) /\
        keys s' = dict_set new_kid entry (keys s) /\
        issued_with env new_kid entry resp).
  { intro m. rewrite generate_key_run. cbv zeta.
    cbn [keys clock_reads rsa_draws uuid_draws ticks uuid_drawn rsa_drawn].
    fold new_kid new_key.
    set (entry := {| private_key := new_key; public_key := rsa_public new_key;
                     expiry := if expired then _ else _ |}).
    erewrite (auth_issue_run env expired new_kid entry)
      by (cbn [keys with_keys]; apply dict_get_set_same).
    cbv zeta. eexists _, _. split; [reflexivity|].
    exists entry. cbn [keys with_keys ticks private_key public_key expiry entry].
    repeat split. eexists _, _. reflexivity. }
  destruct expired eqn:Hexpired.
  - destruct (next_expired_run env (keys s) s) as [r [m [Hrun [Hm Hr]]]].
    rewrite Hrun. destruct r as [k|].
    + destruct Hr as [key [i [Hi [Hin Hlt]]]].
      assert (Hk : k <> EmptyString).
      { rewrite Forall_forall in Hall. apply (Hall (k, key) Hin). }
      destruct (String.eqb_spec k EmptyString); [contradiction|].
      rewrite (auth_issue_run env true k key (ticks m s))
        by (apply in_dict_get_nodup; assumption).
      cbv zeta. eexists _, _. split; [reflexivity|].
      pose proof (Hclock i Hi) as Hb.
      split; [|split].
      * intros _ _. cbn [keys ticks rsa_draws uuid_draws].
        repeat split. exists k, key. split; [exact Hin|].
        split; [lia|]. eexists _, _. reflexivity.
      * intros _ Hnone. specialize (Hnone k key Hin). lia.
      * discriminate.
    + destruct Hr as [-> Hr].
      destruct (Hfresh (List.length (keys s))) as [resp [s' [Hrun' Hnew]]].
      exists resp, s'. split; [exact Hrun'|].
      split; [|split].
      * intros _ [kid [key [Hin Hlt]]].
        destruct (In_nth_error _ _ Hin) as [i Hi].
        pose proof (Hr i _ Hi) as Hle. cbn in Hle.
        assert (Hlen : (i < List.length (keys s))%nat).
        { apply nth_error_Some. congruence. }
        pose proof (Hclock i Hlen). lia.
      * intros _ _. exact Hnew.
      * discriminate.
  - destruct (Hfresh 0%nat) as [resp [s' [Hrun' Hnew]]].
    change (ticks 0 s) with (with_keys (keys s) s) in Hrun'.
    rewrite with_keys_same in Hrun'.
    exists resp, s'. split; [exact Hrun'|].
    split; [discriminate|]. split; [discriminate|].
    intros _. exact Hnew.
Qed.

Lemma auth_key_selection_witness :
  store_ok (keys (state_of store_mixed)) /\
  (forall i, (i < List.length (keys (state_of store_mixed)))%nat ->
             1000 <= clock env_1000 (i + clock_reads (state_of store_mixed))
             <= 1000) /\
  (dict_contains "expired" [("expired", EmptyString)] = true <->
   exists v, In ("expired", v) [("expired", EmptyString)]) /\
  exists resp s',
    auth_endpoint env_1000 [("expired", EmptyString)] (state_of store_mixed) =
    (Ok resp, s') /\
    (dict_contains "expired" [("expired", EmptyString)] = true ->
     (exists kid key, In (kid, key) store_mixed /\ expiry key < 1000) ->
     keys s' = store_mixed /\ rsa_draws s' = 0%nat /\ uuid_draws s' = 0%nat /\
     exists kid key,
       In (kid, key) store_mixed /\ expiry key < 1000 /\
       issued_with env_1000 kid key resp) /\
    (dict_contains "expired" [("expired", EmptyString)] = true ->
     (forall kid key, In (kid, key) store_mixed -> 1000 <= expiry key) ->
     exists entry,
       private_key entry = rsa_generate_private_key env_1000 65537 2048 0 /\
       public_key entry =
       rsa_public (rsa_generate_private_key env_1000 65537 2048 0) /\
       expiry entry = clock env_1000 4 - timedelta_minutes 5 /\
       keys s' = dict_set (uuid4 env_1000 0) entry store_mixed /\
       issued_with env_1000 (uuid4 env_1000 0) entry resp) /\
    (dict_contains "expired" [("expired", EmptyString)] = false ->
     exists entry,
       private_key entry = rsa_generate_private_key env_1000 65537 2048 0 /\
       public_key entry =
       rsa_public (rsa_generate_private_key env_1000 65537 2048 0) /\
       expiry entry = clock env_1000 0 + timedelta_hours 1 /\
       keys s' = dict_set (uuid4 env_1000 0) entry store_mixed /\
       issued_with env_1000 (uuid4 env_1000 0) entry resp).
Proof.
  assert (Hclock : forall i,
             (i < List.length (keys (state_of store_mixed)))%nat ->
             1000 <= clock env_1000 (i + clock_reads (state_of store_mixed))
             <= 1000).
  { intros i _. cbn. lia. }
  split; [exact store_mixed_ok|]. split; [exact Hclock|].
  exact (auth_key_selection env_1000 [("expired", EmptyString)] (state_of store_mixed)
           1000 1000 store_mixed_ok Hclock).
Defined.

(** C4 as stated fails: the expiry and the issue time of a token come from
    two clock readings.  When the first is taken at 0.999999 s and the second
    at 1.000000 s, the token has [exp = 300] and [iat = 1]: the difference
    is 299 seconds, not 300. *)
Lemma lifetime_not_always_300 :
  monotone env_second_boundary /\
  exists tok s' exp iat,
    auth_endpoint env_second_boundary [] (state_of []) =
    (Ok {| status := 201; body := JsonToken tok |}, s') /\
    dict_get "exp" (jwt_claims tok) = Some (PInt exp) /\
    dict_get "iat" (jwt_claims tok) = Some (PInt iat) /\
    exp - iat <> 300.
Proof.
  split; [exact env_second_boundary_monotone|].
  exists token_second_boundary. eexists. exists 300, 1.
  split; [vm_compute; reflexivity|].
  split; [reflexivity|]. split; [reflexivity|]. discriminate.
Qed.

(** C4, amended: with a clock that never goes back, every issued token has
    [iat] equal to the whole seconds of a clock reading and [exp] computed
    from the reading before it.  With the [expired] parameter, [exp] is five
    minutes before its reading, strictly less than [iat] and strictly before
    the reading itself.  Without it, [exp] is the whole seconds of its
    reading plus 300, so [exp - iat] is at most 300, is 300 exactly when
    both readings fall in the same second, and [exp] is strictly greater
    than [iat] whenever the readings are at most 299 seconds apart. *)
Theorem token_expiry env args s resp s' tok :
  monotone env ->
  auth_endpoint env args s = (Ok resp, s') ->
  body resp = JsonToken tok ->
  exists j exp iat,
    let t_exp := clock env j in
    let t_iat := clock env (S j) in
    jwt_claims tok = token_claims iat exp /\
    iat = timegm t_iat /\
    t_exp <= t_iat /\
    (dict_contains "expired" args = true ->
     exp = timegm (t_exp - timedelta_minutes 5) /\
     exp < iat /\ exp * 1000000 < t_exp) /\
    (dict_contains "expired" args = false ->
     exp = timegm t_exp + 300 /\
     exp - iat <= 300 /\
     (exp - iat = 300 <-> timegm t_iat = timegm t_exp) /\
     (t_iat - t_exp <= 299 * 1000000 -> iat < exp)).
Proof.
  intros Hmono Hrun Hbody.
  destruct (auth_endpoint_run env args s)
    as [kid [entry [s1 [j [_ [_ Hrun']]]]]].
  rewrite Hrun in Hrun'. injection Hrun' as Hresp _.
  destruct (reply_of_token _ _ _ _ _ _ Hresp Hbody) as (_ & _ & Hclaims & _).
  pose proof (Hmono j (S j) ltac:(lia)) as Hle.
  eexists j, _, _. cbv zeta. split; [exact Hclaims|].
  split; [reflexivity|]. split; [exact Hle|].
  unfold timegm, timedelta_minutes in *.
  split; intros ->.
  - repeat split; Z.div_mod_to_equations; lia.
  - repeat split; intros; Z.div_mod_to_equations; lia.
Qed.

Lemma token_expiry_witness :
  monotone env_second_boundary /\
  exists j exp iat,
    jwt_claims token_second_boundary = token_claims iat exp /\
    iat = timegm (clock env_second_boundary (S j)) /\
    clock env_second_boundary j <= clock env_second_boundary (S j) /\
    (dict_contains "expired" (@nil (string * string)) = true ->
     exp = timegm (clock env_second_boundary j - timedelta_minutes 5) /\
     exp < iat /\ exp * 1000000 < clock env_second_boundary j) /\
    (dict_contains "expired" (@nil (string * string)) = false ->
     exp = timegm (clock env_second_boundary j) + 300 /\
     exp - iat <= 300 /\
     (exp - iat = 300 <->
      timegm (clock env_second_boundary (S j)) =
      timegm (clock env_second_boundary j)) /\
     (clock env_second_boundary (S j) - clock env_second_boundary j <=
      299 * 1000000 -> iat < exp)).
Proof.
  pose proof env_second_boundary_monotone as Hmono.
  split; [exact Hmono|].
  eapply (token_expiry env_second_boundary [] (state_of [])
            {| status := 201; body := JsonToken token_second_boundary |}).
  - exact Hmono.
  - vm_compute. reflexivity.
  - reflexivity.
Defined.

(** C7: every token returned by the issuance endpoint has exactly the claims
    [sub], [iat] and [exp], in which [sub] is ["example_user"] and the two
    others are integers; its header names the algorithm RS256 and, as
    [kid], the identifier of a key that is in the store when the reply is
    made, and the signature is the one of that key. *)
Theorem token_structure env args s resp s' tok :
  auth_endpoint env args s = (Ok resp, s') ->
  body resp = JsonToken tok ->
  status resp = 201 /\
  dict_keys (jwt_claims tok) = ["sub"; "iat"; "exp"] /\
  dict_get "sub" (jwt_claims tok) = Some (PStr "example_user") /\
  (exists iat exp,
      dict_get "iat" (jwt_claims tok) = Some (PInt iat) /\
      dict_get "exp" (jwt_claims tok) = Some (PInt exp)) /\
  dict_get "alg" (jwt_header tok) = Some "RS256" /\
  exists kid entry,
    dict_get "kid" (jwt_header tok) = Some kid /\
    dict_get kid (keys s') = Some entry /\
    rs256_sign env (private_key entry) (jwt_header tok) (jwt_claims tok) =
    Ok (jwt_signature tok).
Proof.
  intros Hrun Hbody.
  destruct (auth_endpoint_run env args s)
    as [kid [entry [s1 [j [_ [Hget Hrun']]]]]].
  rewrite Hrun in Hrun'. injection Hrun' as Hresp Hs'.
  destruct (reply_of_token _ _ _ _ _ _ Hresp Hbody)
    as (Hstatus & Hheader & Hclaims & Hsign).
  rewrite Hheader, Hclaims.
  split; [exact Hstatus|]. split; [reflexivity|]. split; [reflexivity|].
  split; [eexists _, _; split; reflexivity|]. split; [reflexivity|].
  exists kid, entry. split; [reflexivity|].
  split; [|exact Hsign]. rewrite Hs'. exact Hget.
Qed.

Lemma token_structure_witness :
  status {| status := 201; body := JsonToken token_second_boundary |} = 201 /\
  dict_keys (jwt_claims token_second_boundary) = ["sub"; "iat"; "exp"] /\
  dict_get "sub" (jwt_claims token_second_boundary) =
  Some (PStr "example_user") /\
  (exists iat exp,
      dict_get "iat" (jwt_claims token_second_boundary) = Some (PInt iat) /\
      dict_get "exp" (jwt_claims token_second_boundary) = Some (PInt exp)) /\
  dict_get "alg" (jwt_header token_second_boundary) = Some "RS256" /\
  exists kid entry,
    dict_get "kid" (jwt_header token_second_boundary) = Some kid /\
    dict_get kid
      (keys (snd (auth_endpoint env_second_boundary [] (state_of [])))) =
    Some entry /\
    rs256_sign env_second_boundary (private_key entry)
      (jwt_header token_second_boundary) (jwt_claims token_second_boundary) =
    Ok (jwt_signature token_second_boundary).
Proof.
  apply (token_structure env_second_boundary [] (state_of [])
           {| status := 201; body := JsonToken token_second_boundary |}
           (snd (auth_endpoint env_second_boundary [] (state_of [])))
           token_second_boundary).
  - vm_compute. reflexivity.
  - reflexivity.
Defined.

(** ** Methods *)

(** C8 as stated fails: HEAD is not GET, yet a HEAD request to the discovery
    path is served by the discovery handler, and OPTIONS is answered 200 by
    the framework on both paths. *)
Lemma head_and_options_are_served :
  "HEAD" <> "GET" /\ "OPTIONS" <> "GET" /\ "OPTIONS" <> "POST" /\
  status (fst (dispatch env_1000 (request "HEAD" jwks_path []) (state_of [])))
  = 200 /\
  status (fst (dispatch env_1000 (request "OPTIONS" jwks_path [])
                        (state_of []))) = 200 /\
  status (fst (dispatch env_1000 (request "OPTIONS" auth_path [])
                        (state_of []))) = 200.
Proof. repeat split; discriminate. Qed.

(** C8, amended: PUT, POST, DELETE and PATCH on the discovery path, and GET,
    PUT, DELETE and PATCH on the issuance path, are answered 405 with the
    body [{"error": "Method Not Allowed"}] and leave the store as it is.
    HEAD on the issuance path is answered 405 without a body.  OPTIONS is
    answered 200 by the framework on both paths, and any method that no
    route lists is answered 405 by the framework, without the JSON body.
    The methods with a status other than 405 are exactly GET, HEAD and
    OPTIONS on the discovery path and POST and OPTIONS on the issuance
    path. *)
Theorem method_restriction env s args m :
  let jwks := dispatch env (request m jwks_path args) s in
  let auth := dispatch env (request m auth_path args) s in
  (In m ["PUT"; "POST"; "DELETE"; "PATCH"] ->
   jwks = (method_not_allowed, s)) /\
  (In m ["GET"; "PUT"; "DELETE"; "PATCH"] ->
   auth = (method_not_allowed, s)) /\
  (m = "HEAD" -> auth = ({| status := 405; body := EmptyBody |}, s)) /\
  (m = "OPTIONS" ->
   jwks = ({| status := 200; body := EmptyBody |}, s) /\
   auth = ({| status := 200; body := EmptyBody |}, s)) /\
  (~ In m ["GET"; "HEAD"; "OPTIONS"; "PUT"; "POST"; "DELETE"; "PATCH"] ->
   jwks = ({| status := 405; body := FrameworkPage |}, s) /\
   auth = ({| status := 405; body := FrameworkPage |}, s)) /\
  (status (fst jwks) <> 405 <-> In m ["GET"; "HEAD"; "OPTIONS"]) /\
  (status (fst auth) <> 405 <-> In m ["POST"; "OPTIONS"]).
Proof.
  intros jwks auth.
  assert (Hlisted : In m ["GET"; "HEAD"; "OPTIONS"; "PUT"; "POST"; "DELETE";
                          "PATCH"] \/
                    has_method m ["GET"; "HEAD"; "OPTIONS"; "PUT"; "POST";
                                  "DELETE"; "PATCH"] = false).
  { destruct (has_method m _) eqn:Hm; [left|right; reflexivity].
    unfold has_method in Hm. apply existsb_exists in Hm.
    destruct Hm as [x [Hx Heq]]. apply String.eqb_eq in Heq. subst x.
    exact Hx. }
  assert (Hjwks_get : status (fst (dispatch env (request "GET" jwks_path args)
                                            s)) <> 405).
  { unfold request. rewrite dispatch_get_jwks. apply jwks_status_not_405. }
  assert (Hjwks_head :
            status (fst (dispatch env (request "HEAD" jwks_path args) s))
            <> 405).
  { rewrite dispatch_head_jwks.
    pose proof (jwks_status_not_405 env s) as H.
    destruct (jwks_endpoint env s) as [[resp|e] s']; cbn in *;
      [exact H|discriminate]. }
  pose proof (auth_status_not_405 env args s) as Hauth_post.
  split; [|split; [|split; [|split; [|split; [|split]]]]].
  - subst jwks. cbn [In]. intros [<-|[<-|[<-|[<-|[]]]]]; reflexivity.
  - subst auth. cbn [In]. intros [<-|[<-|[<-|[<-|[]]]]]; reflexivity.
  - subst auth. intros ->. reflexivity.
  - subst jwks auth. intros ->. split; reflexivity.
  - intro Hnot. destruct Hlisted as [Hin|Hout]; [contradiction|].
    apply (dispatch_unlisted env m args s Hout).
  - subst jwks. split.
    + intro Hst. destruct Hlisted as [Hin|Hout].
      * cbn [In] in Hin |- *.
        destruct Hin as [<-|[<-|[<-|[<-|[<-|[<-|[<-|[]]]]]]]]; auto;
          exfalso; apply Hst; reflexivity.
      * exfalso. apply Hst.
        rewrite (proj1 (dispatch_unlisted env m args s Hout)). reflexivity.
    + cbn [In]. intros [<-|[<-|[<-|[]]]];
        [exact Hjwks_get | exact Hjwks_head | discriminate].
  - subst auth. split.
    + intro Hst. destruct Hlisted as [Hin|Hout].
      * cbn [In] in Hin |- *.
        destruct Hin as [<-|[<-|[<-|[<-|[<-|[<-|[<-|[]]]]]]]]; auto;
          exfalso; apply Hst; reflexivity.
      * exfalso. apply Hst.
        rewrite (proj2 (dispatch_unlisted env m args s Hout)). reflexivity.
    + cbn [In]. intros [<-|[<-|[]]]; [exact Hauth_post | discriminate].
Qed.

Lemma method_restriction_witness :
  dispatch env_1000 (request "PUT" jwks_path []) (state_of []) =
  (method_not_allowed, state_of []) /\
  dispatch env_1000 (request "PUT" auth_path []) (state_of []) =
  (method_not_allowed, state_of []).
Proof.
  pose proof (method_restriction env_1000 (state_of []) [] "PUT")
    as (Hjwks & Hauth & _).
  split.
  - apply Hjwks. left. reflexivity.
  - apply Hauth. right. left. reflexivity.
Defined.


(* ===================================================================== *)
(** * Part IV: further properties of the code                             *)
(* ===================================================================== *)

(** ** [base64url_encode] *)

(** X1: [base64url_encode] returns a string exactly for the non-negative
    integers: the number of bytes it asks [to_bytes] for is always enough,
    and a negative integer raises [OverflowError]. *)
Theorem base64url_encode_domain v :
  ((exists t, base64url_encode v = Ok t) <-> 0 <= v) /\
  (base64url_encode v = Raise OverflowError <-> v < 0).
Proof.
  assert (Hneg : v < 0 -> base64url_encode v = Raise OverflowError).
  { intro Hv. unfold base64url_encode, to_bytes.
    destruct (Z.ltb_spec v 0); [reflexivity|lia]. }
  split; split.
  - intros [t Ht]. apply (base64url_encode_inv v t Ht).
  - apply base64url_encode_ok.
  - intro Hr. destruct (Z.lt_ge_cases v 0) as [Hlt|Hge]; [exact Hlt|].
    destruct (base64url_encode_ok v Hge) as [t Ht]. congruence.
  - exact Hneg.
Qed.

(** X2: two integers with the same encoding are equal: the encoding of a
    key component identifies it. *)
Theorem base64url_encode_injective v w t :
  base64url_encode v = Ok t -> base64url_encode w = Ok t -> v = w.
Proof.
  intros Hv Hw.
  apply base64url_encode_inv in Hv. destruct Hv as (_ & Hv & _).
  apply base64url_encode_inv in Hw. destruct Hw as (_ & Hw & _).
  congruence.
Qed.

Lemma base64url_encode_injective_witness :
  base64url_encode 65537 = Ok "AQAB" /\
  base64url_encode (65536 + 1) = Ok "AQAB" /\ 65537 = 65536 + 1.
Proof.
  split; [reflexivity|]. split; [reflexivity|].
  apply (base64url_encode_injective 65537 (65536 + 1) "AQAB"); reflexivity.
Defined.

(** X3: the length of the encoding depends on the bit length of the integer
    alone: with [k] the number of bytes, [(bit_length + 7) / 8], it has
    [(4 * k + 2) / 3] characters; the modulus of a 2048-bit key is
    published in 342 characters. *)
Theorem base64url_encode_length v :
  0 <= v ->
  exists t,
    base64url_encode v = Ok t /\
    Z.of_nat (String.length t) = (4 * ((bit_length v + 7) / 8) + 2) / 3 /\
    (2 ^ 2047 <= v < 2 ^ 2048 -> String.length t = 342%nat).
Proof.
  intro Hv. destruct (base64url_encode_ok v Hv) as [t Henc].
  exists t. split; [exact Henc|].
  assert (Hlen : Z.of_nat (String.length t) =
                 (4 * ((bit_length v + 7) / 8) + 2) / 3).
  { rewrite base64url_encode_value in Henc by assumption.
    injection Henc as <-.
    unfold decode_utf8. rewrite decode_length, !length_map.
    rewrite b64_sextets_length, big_endian_length.
    pose proof (bit_length_nonneg v).
    rewrite Z2Nat.id by (apply Z.div_pos; lia). reflexivity. }
  split; [exact Hlen|].
  intros [Hlo Hhi].
  assert (Hbits : bit_length v = 2048).
  { unfold bit_length. destruct (Z.eqb_spec v 0) as [->|Hne].
    - exfalso. pose proof (Z.pow_pos_nonneg 2 2047 ltac:(lia) ltac:(lia)). lia.
    - rewrite Z.abs_eq by lia.
      assert (Z.log2 v = 2047); [|lia].
      apply Z.log2_unique; [lia|]. split; [exact Hlo|].
      replace (Z.succ 2047) with 2048 by lia. exact Hhi. }
  rewrite Hbits in Hlen. clear - Hlen.
  change ((4 * ((2048 + 7) / 8) + 2) / 3) with (Z.of_nat 342) in Hlen.
  apply Nat2Z.inj, Hlen.
Qed.

Lemma base64url_encode_length_witness :
  0 <= 2 ^ 2047 /\
  exists t,
    base64url_encode (2 ^ 2047) = Ok t /\
    Z.of_nat (String.length t) =
    (4 * ((bit_length (2 ^ 2047) + 7) / 8) + 2) / 3 /\
    (2 ^ 2047 <= 2 ^ 2047 < 2 ^ 2048 -> String.length t = 342%nat).
Proof.
  assert (H : 0 <= 2 ^ 2047) by (apply Z.pow_nonneg; lia).
  split; [exact H|]. exact (base64url_encode_length (2 ^ 2047) H).
Defined.

(** ** Discovery, whatever its outcome *)

Lemma purge_loop_frame ks :
  forall s,
    incl (keys (snd (for_each ks keys_delitem s))) (keys s) /\
    clock_reads (snd (for_each ks keys_delitem s)) = clock_reads s /\
    rsa_draws (snd (for_each ks keys_delitem s)) = rsa_draws s /\
    uuid_draws (snd (for_each ks keys_delitem s)) = uuid_draws s.
Proof.
  induction ks as [|k ks IH]; intro s.
  - cbn. auto using incl_refl.
  - cbn [for_each]. unfold bind at 1 2 3 4.
    unfold keys_delitem at 1 3 5 7. unfold bind at 1 2 3 4, get_keys.
    destruct (dict_del k (keys s)) as [d1|] eqn:Hdel.
    + unfold put_keys.
      destruct (IH (with_keys d1 s)) as (Hi & Hc & Hr & Hu).
      cbn [keys with_keys clock_reads rsa_draws uuid_draws] in Hi, Hc, Hr, Hu.
      repeat split; try assumption.
      eapply incl_tran; [exact Hi|]. eapply dict_del_incl, Hdel.
    + cbn. auto using incl_refl.
Qed.

Lemma comprehension_jwk_frame items s :
  snd (comprehension items jwk_of s) = s.
Proof.
  induction items as [|[kid key] items IH]; [reflexivity|].
  cbn [comprehension]. unfold bind at 1. unfold jwk_of at 1, bind, lift, ret.
  destruct (base64url_encode (pub_n (public_key key))); [|reflexivity].
  destruct (base64url_encode (pub_e (public_key key))); [|reflexivity].
  destruct (comprehension items jwk_of s) as [[js|e] s1]; cbn in IH |- *;
    exact IH.
Qed.

(** X4: a discovery request, whether it succeeds or fails, only removes
    entries from the store: every entry left after it was there before,
    unchanged.  It generates no key and no identifier, and reads the clock
    once. *)
Theorem jwks_endpoint_only_removes env s :
  incl (keys (snd (jwks_endpoint env s))) (keys s) /\
  clock_reads (snd (jwks_endpoint env s)) = S (clock_reads s) /\
  rsa_draws (snd (jwks_endpoint env s)) = rsa_draws s /\
  uuid_draws (snd (jwks_endpoint env s)) = uuid_draws s.
Proof.
  rewrite jwks_endpoint_unfold. cbv zeta.
  set (ks := map fst _).
  pose proof (purge_loop_frame ks (tick s)) as Hloop.
  destruct (for_each ks keys_delitem (tick s)) as [[u|e] s1];
    cbn [snd keys clock_reads rsa_draws uuid_draws tick ticks] in Hloop.
  - pose proof (comprehension_jwk_frame (keys s1) s1) as Hc.
    destruct (comprehension (keys s1) jwk_of s1) as [[js|e] s2];
      cbn [snd] in Hc |- *; subst s2; exact Hloop.
  - exact Hloop.
Qed.

(** ** Discovery after key generation *)

Lemma publishes_in items jwks item :
  Forall2 publishes items jwks -> In item items ->
  exists j, In j jwks /\ publishes item j.
Proof.
  induction 1 as [|item' j items jwks Hp _ IH]; intros Hin; [destruct Hin|].
  destruct Hin as [->|Hin].
  - exists j. split; [left; reflexivity|exact Hp].
  - destruct (IH Hin) as [j' [Hj' Hp']]. exists j'.
    split; [right; exact Hj'|exact Hp'].
Qed.

Lemma publishes_functional item j j' :
  publishes item j -> publishes item j' -> j = j'.
Proof.
  destruct j, j'. unfold publishes. cbn.
  intros (-> & -> & -> & -> & Hn & He) (-> & -> & -> & -> & Hn' & He').
  rewrite Hn in Hn'. rewrite He in He'.
  injection Hn' as ->. injection He' as ->. reflexivity.
Qed.

(** A stored key whose expiry is before the time of the request is removed
    and not published. *)
Lemma jwks_endpoint_purges env s kid entry :
  store_ok (keys s) -> dict_get kid (keys s) = Some entry ->
  expiry entry < clock env (clock_reads s) ->
  exists jwks s',
    jwks_endpoint env s =
    (Ok {| status := 200; body := JsonKeys jwks |}, s') /\
    dict_contains kid (keys s') = false /\ ~ In kid (map jwk_kid jwks).
Proof.
  intros Hok Hget Hexp. pose proof Hok as [Hnd _].
  destruct (jwks_endpoint_run env s Hnd (store_ok_encodable _ _ Hok))
    as [jwks [Hrun Hpub]].
  eexists jwks, _. split; [exact Hrun|]. cbn [keys with_keys].
  assert (Hout : ~ In kid
                   (dict_keys
                      (filter (fun item => clock env (clock_reads s) <=?
                                           expiry (snd item)) (keys s)))).
  { unfold dict_keys. intro Hin. apply in_map_iff in Hin.
    destruct Hin as [[k key] [Hk Hin]]. cbn in Hk. subst k.
    apply filter_In in Hin. destruct Hin as [Hin Hle].
    rewrite (in_dict_get_nodup _ _ _ Hnd Hin) in Hget.
    injection Hget as ->. cbn in Hle. apply Z.leb_le in Hle. lia. }
  split.
  - apply not_true_is_false. intro Hc. apply Hout, dict_contains_keys, Hc.
  - rewrite (publishes_kids _ _ Hpub). exact Hout.
Qed.

(** A stored key whose expiry is not before the time of the request is kept
    and published. *)
Lemma jwks_endpoint_keeps env s kid entry :
  store_ok (keys s) -> dict_get kid (keys s) = Some entry ->
  clock env (clock_reads s) <= expiry entry ->
  exists jwks s' j,
    jwks_endpoint env s =
    (Ok {| status := 200; body := JsonKeys jwks |}, s') /\
    In j jwks /\ publishes (kid, entry) j /\
    dict_get kid (keys s') = Some entry.
Proof.
  intros Hok Hget Hexp. pose proof Hok as [Hnd _].
  destruct (jwks_endpoint_run env s Hnd (store_ok_encodable _ _ Hok))
    as [jwks [Hrun Hpub]].
  assert (Hkept : In (kid, entry)
                    (filter (fun item => clock env (clock_reads s) <=?
                                         expiry (snd item)) (keys s))).
  { apply filter_In. split; [apply dict_get_in, Hget|].
    cbn. apply Z.leb_le, Hexp. }
  destruct (publishes_in _ _ _ Hpub Hkept) as [j [Hj Hp]].
  eexists jwks, _, j. split; [exact Hrun|]. split; [exact Hj|].
  split; [exact Hp|]. cbn [keys with_keys].
  apply in_dict_get_nodup; [apply nodup_keys_filter, Hnd|exact Hkept].
Qed.

(** X5: a key made with [generate_key(expired=True)] is in the store, and,
    with a clock that never goes back, the next discovery request removes
    it: it is neither left in the store nor published. *)
Theorem expired_key_is_cleaned_up env s :
  env_ok env -> monotone env -> store_ok (keys s) ->
  exists kid s1 jwks s2,
    generate_key env true s = (Ok kid, s1) /\
    dict_contains kid (keys s1) = true /\
    jwks_endpoint env s1 =
    (Ok {| status := 200; body := JsonKeys jwks |}, s2) /\
    dict_contains kid (keys s2) = false /\
    ~ In kid (map jwk_kid jwks).
Proof.
  intros Henv Hmono Hok.
  pose proof (generate_key_store_ok env true s Henv Hok) as Hok1.
  rewrite generate_key_run in Hok1 |- *. cbv zeta in Hok1 |- *.
  cbn [snd] in Hok1.
  set (kid := uuid4 env (uuid_draws s)) in *.
  set (entry := {| private_key := _; public_key := _; expiry := _ |}) in *.
  set (s1 := with_keys _ _) in *.
  assert (Hget : dict_get kid (keys s1) = Some entry).
  { cbn [keys with_keys s1]. apply dict_get_set_same. }
  assert (Hexp : expiry entry < clock env (clock_reads s1)).
  { cbn [expiry entry clock_reads s1 with_keys ticks uuid_drawn rsa_drawn].
    pose proof (Hmono (S (clock_reads s)) (2 + clock_reads s)%nat
                      ltac:(lia)).
    unfold timedelta_minutes. lia. }
  destruct (jwks_endpoint_purges env s1 kid entry Hok1 Hget Hexp)
    as [jwks [s2 [Hrun [Hgone Hunpub]]]].
  exists kid, s1, jwks, s2. split; [reflexivity|].
  split; [|auto].
  apply dict_contains_keys. unfold dict_keys.
  apply in_map_iff. exists (kid, entry).
  split; [reflexivity|apply dict_get_in, Hget].
Qed.

Lemma expired_key_is_cleaned_up_witness :
  env_ok env_second_boundary /\ monotone env_second_boundary /\
  store_ok (keys (state_of store_mixed)) /\
  exists kid s1 jwks s2,
    generate_key env_second_boundary true (state_of store_mixed) =
    (Ok kid, s1) /\
    dict_contains kid (keys s1) = true /\
    jwks_endpoint env_second_boundary s1 =
    (Ok {| status := 200; body := JsonKeys jwks |}, s2) /\
    dict_contains kid (keys s2) = false /\
    ~ In kid (map jwk_kid jwks).
Proof.
  pose proof (sample_env_ok (fun i => 999998 + Z.of_nat i)) as Henv.
  split; [exact Henv|]. split; [exact env_second_boundary_monotone|].
  split; [exact store_mixed_ok|].
  exact (expired_key_is_cleaned_up env_second_boundary (state_of store_mixed)
           Henv env_second_boundary_monotone store_mixed_ok).
Defined.

(** X6: a key made with [generate_key()] is published by a discovery
    request that comes within the hour: the reply is 200, its key list is
    not empty and holds an entry with the new identifier whose [n] and [e]
    decode to the modulus of the generated key and to 65537. *)
Theorem fresh_key_is_published env s :
  env_ok env -> store_ok (keys s) ->
  clock env (S (clock_reads s)) <=
  clock env (clock_reads s) + timedelta_hours 1 ->
  exists kid s1 jwks s2 j,
    generate_key env false s = (Ok kid, s1) /\
    jwks_endpoint env s1 =
    (Ok {| status := 200; body := JsonKeys jwks |}, s2) /\
    In j jwks /\ jwk_kid j = kid /\
    decode_int (jwk_n j) =
    Some (pub_n (rsa_public
                   (rsa_generate_private_key env 65537 2048 (rsa_draws s)))) /\
    decode_int (jwk_e j) = Some 65537.
Proof.
  intros Henv Hok Hclock.
  pose proof (generate_key_store_ok env false s Henv Hok) as Hok1.
  rewrite generate_key_run in Hok1 |- *. cbv zeta in Hok1 |- *.
  cbn [snd] in Hok1.
  set (kid := uuid4 env (uuid_draws s)) in *.
  set (priv := rsa_generate_private_key env 65537 2048 (rsa_draws s)) in *.
  set (entry := {| private_key := _; public_key := _; expiry := _ |}) in *.
  set (s1 := with_keys _ _) in *.
  assert (Hget : dict_get kid (keys s1) = Some entry).
  { cbn [keys with_keys s1]. apply dict_get_set_same. }
  assert (Hexp : clock env (clock_reads s1) <= expiry entry).
  { cbn [expiry entry clock_reads s1 with_keys ticks uuid_drawn rsa_drawn].
    exact Hclock. }
  destruct (jwks_endpoint_keeps env s1 kid entry Hok1 Hget Hexp)
    as [jwks [s2 [j [Hrun [Hj [Hp _]]]]]].
  destruct Hp as (_ & _ & _ & Hkid & Hn & He). cbn [fst snd] in Hkid, Hn, He.
  apply base64url_encode_inv in Hn. destruct Hn as (_ & Hn & _).
  apply base64url_encode_inv in He. destruct He as (_ & He & _).
  exists kid, s1, jwks, s2, j. split; [reflexivity|].
  split; [exact Hrun|]. split; [exact Hj|]. split; [exact Hkid|].
  split; [exact Hn|]. rewrite He. cbn [public_key entry].
  destruct Henv as [_ Hrsa]. destruct (Hrsa 65537 2048 (rsa_draws s)) as [H _].
  unfold priv. rewrite H. reflexivity.
Qed.

Lemma fresh_key_is_published_witness :
  env_ok env_1000 /\ store_ok (keys (state_of store_mixed)) /\
  clock env_1000 (S (clock_reads (state_of store_mixed))) <=
  clock env_1000 (clock_reads (state_of store_mixed)) + timedelta_hours 1 /\
  exists kid s1 jwks s2 j,
    generate_key env_1000 false (state_of store_mixed) = (Ok kid, s1) /\
    jwks_endpoint env_1000 s1 =
    (Ok {| status := 200; body := JsonKeys jwks |}, s2) /\
    In j jwks /\ jwk_kid j = kid /\
    decode_int (jwk_n j) =
    Some (pub_n (rsa_public
                   (rsa_generate_private_key env_1000 65537 2048
                      (rsa_draws (state_of store_mixed))))) /\
    decode_int (jwk_e j) = Some 65537.
Proof.
  pose proof (sample_env_ok (fun _ => 1000)) as Henv.
  assert (Hclock :
            clock env_1000 (S (clock_reads (state_of store_mixed))) <=
            clock env_1000 (clock_reads (state_of store_mixed)) +
            timedelta_hours 1).
  { unfold env_1000, sample_env, timedelta_hours. cbn [clock]. lia. }
  split; [exact Henv|]. split; [exact store_mixed_ok|].
  split; [exact Hclock|].
  exact (fresh_key_is_published env_1000 (state_of store_mixed)
           Henv store_mixed_ok Hclock).
Defined.

(** ** Successive discovery requests *)

Lemma publishes_from items jwks j :
  Forall2 publishes items jwks -> In j jwks ->
  exists item, In item items /\ publishes item j.
Proof.
  induction 1 as [|item j' items jwks Hp _ IH]; intros Hin; [destruct Hin|].
  destruct Hin as [->|Hin].
  - exists item. split; [left; reflexivity|exact Hp].
  - destruct (IH Hin) as [it [Hit Hp']]. exists it.
    split; [right; exact Hit|exact Hp'].
Qed.

Lemma publishes_same_list items jwks jwks' :
  Forall2 publishes items jwks -> Forall2 publishes items jwks' ->
  jwks = jwks'.
Proof.
  intro H. revert jwks'.
  induction H as [|item j items jwks Hp _ IH]; intros jwks' H';
    inversion H' as [|? j' ? jwks'' Hp' Hrest]; subst; [reflexivity|].
  f_equal; [eapply publishes_functional; eassumption|apply IH, Hrest].
Qed.

(** X7: two discovery requests in a row, the clock not going back between
    them: both are answered 200; the store left by the second is the
    original store without the keys that have expired at the second
    request; every key published by the second was published by the first;
    and when both read the same time the second reply is the first one
    again and the store does not change. *)
Theorem successive_discoveries env s :
  store_ok (keys s) ->
  clock env (clock_reads s) <= clock env (S (clock_reads s)) ->
  exists jwks1 s1 jwks2 s2,
    jwks_endpoint env s =
    (Ok {| status := 200; body := JsonKeys jwks1 |}, s1) /\
    jwks_endpoint env s1 =
    (Ok {| status := 200; body := JsonKeys jwks2 |}, s2) /\
    keys s2 = filter (fun item => clock env (S (clock_reads s)) <=?
                                  expiry (snd item)) (keys s) /\
    incl jwks2 jwks1 /\
    (clock env (S (clock_reads s)) = clock env (clock_reads s) ->
     jwks2 = jwks1 /\ keys s2 = keys s1).
Proof.
  intros Hok Hclock. pose proof Hok as [Hnd _].
  destruct (jwks_endpoint_run env s Hnd (store_ok_encodable _ _ Hok))
    as [jwks1 [Hrun1 Hpub1]].
  set (now1 := clock env (clock_reads s)) in *.
  set (kept1 := filter (fun item => now1 <=? expiry (snd item)) (keys s)) in *.
  set (s1 := with_keys kept1 (tick s)) in *.
  assert (Hok1 : store_ok (keys s1)) by (apply store_ok_filter, Hok).
  pose proof Hok1 as [Hnd1 _].
  destruct (jwks_endpoint_run env s1 Hnd1 (store_ok_encodable _ _ Hok1))
    as [jwks2 [Hrun2 Hpub2]].
  change (clock_reads s1) with (S (clock_reads s)) in Hrun2, Hpub2.
  set (now2 := clock env (S (clock_reads s))) in *.
  change (keys s1) with kept1 in Hrun2, Hpub2.
  assert (Hkept2 : filter (fun item => now2 <=? expiry (snd item)) kept1 =
                   filter (fun item => now2 <=? expiry (snd item)) (keys s)).
  { unfold kept1. rewrite filter_filter. apply filter_ext. intro item.
    destruct (Z.leb_spec now2 (expiry (snd item)));
      destruct (Z.leb_spec now1 (expiry (snd item))); try reflexivity; lia. }
  eexists jwks1, s1, jwks2, _. split; [exact Hrun1|]. split; [exact Hrun2|].
  cbn [keys with_keys]. split; [exact Hkept2|]. split.
  - intros j Hj. destruct (publishes_from _ _ _ Hpub2 Hj) as [item [Hin Hp]].
    apply filter_In in Hin. destruct Hin as [Hin _].
    destruct (publishes_in _ _ _ Hpub1 Hin) as [j' [Hj' Hp']].
    rewrite (publishes_functional item j j' Hp Hp'). exact Hj'.
  - intro Heq.
    assert (Hsame : filter (fun item => now2 <=? expiry (snd item)) kept1 =
                    kept1).
    { apply filter_true. intros item Hin. apply filter_In in Hin.
      destruct Hin as [_ Hle]. rewrite Heq. exact Hle. }
    rewrite Hsame in Hpub2 |- *. split; [|reflexivity].
    apply (publishes_same_list kept1); assumption.
Qed.

Lemma successive_discoveries_witness :
  store_ok (keys (state_of store_mixed)) /\
  clock env_second_boundary (clock_reads (state_of store_mixed)) <=
  clock env_second_boundary (S (clock_reads (state_of store_mixed))) /\
  exists jwks1 s1 jwks2 s2,
    jwks_endpoint env_second_boundary (state_of store_mixed) =
    (Ok {| status := 200; body := JsonKeys jwks1 |}, s1) /\
    jwks_endpoint env_second_boundary s1 =
    (Ok {| status := 200; body := JsonKeys jwks2 |}, s2) /\
    keys s2 =
    filter (fun item =>
              clock env_second_boundary
                    (S (clock_reads (state_of store_mixed))) <=?
              expiry (snd item)) (keys (state_of store_mixed)) /\
    incl jwks2 jwks1 /\
    (clock env_second_boundary (S (clock_reads (state_of store_mixed))) =
     clock env_second_boundary (clock_reads (state_of store_mixed)) ->
     jwks2 = jwks1 /\ keys s2 = keys s1).
Proof.
  assert (Hclock :
            clock env_second_boundary (clock_reads (state_of store_mixed)) <=
            clock env_second_boundary
                  (S (clock_reads (state_of store_mixed)))).
  { apply env_second_boundary_monotone. lia. }
  split; [exact store_mixed_ok|]. split; [exact Hclock|].
  exact (successive_discoveries env_second_boundary (state_of store_mixed)
           store_mixed_ok Hclock).
Defined.

(** X8: the identifiers in a discovery reply are pairwise distinct, and the
    reply lists the keys in the order of the store, one entry for each key
    left in it. *)
Theorem published_kids_are_distinct env s :
  store_ok (keys s) ->
  exists jwks s',
    jwks_endpoint env s =
    (Ok {| status := 200; body := JsonKeys jwks |}, s') /\
    NoDup (map jwk_kid jwks) /\
    map jwk_kid jwks = dict_keys (keys s') /\
    List.length jwks = List.length (keys s').
Proof.
  intro Hok. pose proof Hok as [Hnd _].
  destruct (jwks_endpoint_run env s Hnd (store_ok_encodable _ _ Hok))
    as [jwks [Hrun Hpub]].
  eexists jwks, _. split; [exact Hrun|]. cbn [keys with_keys].
  pose proof (publishes_kids _ _ Hpub) as Hkids.
  split; [rewrite Hkids; apply nodup_keys_filter, Hnd|].
  split; [exact Hkids|].
  symmetry. eapply Forall2_length, Hpub.
Qed.

Lemma published_kids_are_distinct_witness :
  store_ok (keys (state_of store_mixed)) /\
  exists jwks s',
    jwks_endpoint env_1000 (state_of store_mixed) =
    (Ok {| status := 200; body := JsonKeys jwks |}, s') /\
    NoDup (map jwk_kid jwks) /\
    map jwk_kid jwks = dict_keys (keys s') /\
    List.length jwks = List.length (keys s').
Proof.
  split; [exact store_mixed_ok|].
  exact (published_kids_are_distinct env_1000 (state_of store_mixed)
           store_mixed_ok).
Defined.

(** ** Issuance and the store *)

Lemma dict_set_length {V : Type} k (v : V) (d : dict V) :
  (List.length (dict_set k v d) <= S (List.length d))%nat.
Proof.
  induction d as [|[k' v'] d IH]; cbn; [lia|].
  destruct (String.eqb k k'); cbn; lia.
Qed.

Lemma dict_keys_set_incl {V : Type} k (v : V) (d : dict V) k0 :
  In k0 (dict_keys d) -> In k0 (dict_keys (dict_set k v d)).
Proof.
  intro H. rewrite dict_keys_set. destruct (dict_contains k d); [exact H|].
  apply in_or_app. left. exact H.
Qed.

(** The choice of the key either leaves the dictionary and the generators
    alone or stores one generated key under the next identifier. *)
Lemma auth_select_key_keys env expired s :
  exists kid s1,
    auth_select_key env expired s = (Ok kid, s1) /\
    ((keys s1 = keys s /\ rsa_draws s1 = rsa_draws s /\
      uuid_draws s1 = uuid_draws s) \/
     (exists entry,
         kid = uuid4 env (uuid_draws s) /\
         keys s1 = dict_set kid entry (keys s) /\
         rsa_draws s1 = S (rsa_draws s) /\
         uuid_draws s1 = S (uuid_draws s))).
Proof.
  rewrite auth_select_key_unfold.
  assert (Hgen : forall m, exists kid s1,
             generate_key env expired (ticks m s) = (Ok kid, s1) /\
             exists entry,
               kid = uuid4 env (uuid_draws s) /\
               keys s1 = dict_set kid entry (keys s) /\
               rsa_draws s1 = S (rsa_draws s) /\
               uuid_draws s1 = S (uuid_draws s)).
  { intro m. rewrite generate_key_run. cbv zeta. eexists _, _.
    split; [reflexivity|]. eexists. split; [reflexivity|].
    split; [reflexivity|].
    destruct expired; split; reflexivity. }
  assert (Hfresh : forall m, exists kid s1,
             generate_key env expired (ticks m s) = (Ok kid, s1) /\
             ((keys s1 = keys s /\ rsa_draws s1 = rsa_draws s /\
               uuid_draws s1 = uuid_draws s) \/
              (exists entry,
                  kid = uuid4 env (uuid_draws s) /\
                  keys s1 = dict_set kid entry (keys s) /\
                  rsa_draws s1 = S (rsa_draws s) /\
                  uuid_draws s1 = S (uuid_draws s)))).
  { intro m. destruct (Hgen m) as [kid [s1 [Hrun Hnew]]].
    exists kid, s1. split; [exact Hrun|right; exact Hnew]. }
  destruct expired.
  - destruct (next_expired_run env (keys s) s) as [r [m [Hrun _]]].
    rewrite Hrun. destruct r as [k|]; [|apply Hfresh].
    destruct (String.eqb k EmptyString); [apply Hfresh|].
    exists k, (ticks m s). split; [reflexivity|]. left. auto.
  - specialize (Hfresh 0%nat).
    change (ticks 0 s) with (with_keys (keys s) s) in Hfresh.
    rewrite with_keys_same in Hfresh. exact Hfresh.
Qed.

(** X9: the issuance handler never raises: the key it looks up is always
    in the store, and a failure of the signature is caught.  Its reply is
    201 with a token, or 500 with the message of the failure in a JSON
    error; a POST on the issuance path never gets the framework's error
    page. *)
Theorem auth_endpoint_never_raises env args s :
  exists resp s',
    auth_endpoint env args s = (Ok resp, s') /\
    ((status resp = 201 /\ exists tok, body resp = JsonToken tok) \/
     (status resp = 500 /\
      exists e,
        body resp =
        JsonError ("JWT encoding error: " ++ exn_str e)%string)) /\
    dispatch env (request "POST" auth_path args) s = (resp, s').
Proof.
  destruct (auth_endpoint_run env args s)
    as [kid [entry [s1 [j [_ [_ Hrun]]]]]].
  eexists _, _. split; [exact Hrun|]. split.
  - unfold reply_of. destruct (rs256_sign env _ _ _) as [sig|e]; cbn.
    + left. split; [reflexivity|]. eexists. reflexivity.
    + right. split; [reflexivity|]. exists e. reflexivity.
  - rewrite dispatch_post_auth, Hrun. reflexivity.
Qed.

(** X10: an issuance request never removes a key: the store after it is
    the store before it, or that store with one generated key assigned
    under the next identifier.  Every identifier stays, every entry under
    another identifier is unchanged, and the store grows by one entry at
    most. *)
Theorem auth_endpoint_keeps_keys env args s :
  (keys (snd (auth_endpoint env args s)) = keys s \/
   exists entry,
     keys (snd (auth_endpoint env args s)) =
     dict_set (uuid4 env (uuid_draws s)) entry (keys s)) /\
  (forall k, In k (dict_keys (keys s)) ->
             In k (dict_keys (keys (snd (auth_endpoint env args s))))) /\
  (forall k, k <> uuid4 env (uuid_draws s) ->
             dict_get k (keys (snd (auth_endpoint env args s))) =
             dict_get k (keys s)) /\
  (List.length (keys (snd (auth_endpoint env args s))) <=
   S (List.length (keys s)))%nat.
Proof.
  destruct (auth_endpoint_run env args s)
    as [kid [entry [s1 [j [Hsel [_ Hrun]]]]]].
  destruct (auth_select_key_keys env (dict_contains "expired" args) s)
    as [kid' [s1' [Hsel' Hkeys]]].
  rewrite Hsel in Hsel'. injection Hsel' as <- <-.
  rewrite Hrun. cbn [snd].
  assert (Hfinal : keys (ticks (if dict_contains "expired" args then 3 else 2)
                               s1) = keys s1) by reflexivity.
  rewrite Hfinal.
  destruct Hkeys as [(Hk & _ & _)|[new (Hkid & Hk & _ & _)]]; rewrite Hk.
  - split; [left; reflexivity|]. split; [auto|]. split; [auto|lia].
  - subst kid. split; [right; exists new; reflexivity|].
    split; [intros k Hin; apply dict_keys_set_incl, Hin|].
    split; [intros k Hne; apply dict_get_set_other, Hne|].
    apply dict_set_length.
Qed.

(** ** Issuance followed by discovery *)

(** X11: the key of a token issued without the [expired] parameter can be
    fetched: a discovery request that follows within the hour publishes a
    key under the identifier named in the token header, and its [n] and [e]
    decode to the public numbers of the private key that signed. *)
Theorem issued_token_key_is_published env args s :
  env_ok env -> store_ok (keys s) ->
  dict_contains "expired" args = false ->
  clock env (3 + clock_reads s) <=
  clock env (clock_reads s) + timedelta_hours 1 ->
  exists resp s1 entry jwks s2 j,
    auth_endpoint env args s = (Ok resp, s1) /\
    issued_with env (uuid4 env (uuid_draws s)) entry resp /\
    jwks_endpoint env s1 =
    (Ok {| status := 200; body := JsonKeys jwks |}, s2) /\
    In j jwks /\ jwk_kid j = uuid4 env (uuid_draws s) /\
    decode_int (jwk_n j) = Some (pub_n (rsa_public (private_key entry))) /\
    decode_int (jwk_e j) = Some (pub_e (rsa_public (private_key entry))).
Proof.
  intros Henv Hok Hargs Hclock.
  pose proof (generate_key_store_ok env false s Henv Hok) as Hok1.
  rewrite auth_endpoint_unfold, auth_select_key_unfold, Hargs.
  rewrite generate_key_run in Hok1 |- *. cbv beta iota zeta in Hok1 |- *.
  cbn [snd] in Hok1.
  set (kid := uuid4 env (uuid_draws s)) in *.
  set (entry := {| private_key := _; public_key := _; expiry := _ |}) in *.
  set (s1 := with_keys _ _) in *.
  assert (Hget : dict_get kid (keys s1) = Some entry).
  { cbn [keys with_keys s1]. apply dict_get_set_same. }
  rewrite (auth_issue_run env false kid entry s1 Hget). cbv zeta.
  set (s2 := ticks 2 s1).
  assert (Hexp : clock env (clock_reads s2) <= expiry entry).
  { cbn [expiry entry clock_reads s2 s1 with_keys ticks uuid_drawn rsa_drawn].
    exact Hclock. }
  destruct (jwks_endpoint_keeps env s2 kid entry Hok1 Hget Hexp)
    as [jwks [s3 [j [Hrun [Hj [Hp _]]]]]].
  destruct Hp as (_ & _ & _ & Hkid & Hn & He). cbn [fst snd] in Hkid, Hn, He.
  apply base64url_encode_inv in Hn. destruct Hn as (_ & Hn & _).
  apply base64url_encode_inv in He. destruct He as (_ & He & _).
  eexists _, s2, entry, jwks, s3, j. split; [reflexivity|].
  split; [eexists _, _; reflexivity|].
  split; [exact Hrun|]. split; [exact Hj|]. split; [exact Hkid|].
  split; [exact Hn|exact He].
Qed.

Lemma issued_token_key_is_published_witness :
  env_ok env_second_boundary /\
  store_ok (keys (state_of store_mixed)) /\
  dict_contains "expired" (@nil (string * string)) = false /\
  clock env_second_boundary (3 + clock_reads (state_of store_mixed)) <=
  clock env_second_boundary (clock_reads (state_of store_mixed)) +
  timedelta_hours 1 /\
  exists resp s1 entry jwks s2 j,
    auth_endpoint env_second_boundary [] (state_of store_mixed) =
    (Ok resp, s1) /\
    issued_with env_second_boundary
      (uuid4 env_second_boundary (uuid_draws (state_of store_mixed)))
      entry resp /\
    jwks_endpoint env_second_boundary s1 =
    (Ok {| status := 200; body := JsonKeys jwks |}, s2) /\
    In j jwks /\
    jwk_kid j =
    uuid4 env_second_boundary (uuid_draws (state_of store_mixed)) /\
    decode_int (jwk_n j) = Some (pub_n (rsa_public (private_key entry))) /\
    decode_int (jwk_e j) = Some (pub_e (rsa_public (private_key entry))).
Proof.
  pose proof (sample_env_ok (fun i => 999998 + Z.of_nat i)) as Henv.
  assert (Hclock :
            clock env_second_boundary
                  (3 + clock_reads (state_of store_mixed)) <=
            clock env_second_boundary (clock_reads (state_of store_mixed)) +
            timedelta_hours 1).
  { unfold env_second_boundary, sample_env, timedelta_hours. cbn. lia. }
  split; [exact Henv|]. split; [exact store_mixed_ok|].
  split; [reflexivity|]. split; [exact Hclock|].
  exact (issued_token_key_is_published env_second_boundary []
           (state_of store_mixed) Henv store_mixed_ok eq_refl Hclock).
Defined.

(** The search of [auth_endpoint] stops at a key that has expired at the
    last reading it made. *)
Lemma next_expired_found env items :
  forall s k s',
    next_expired env items s = (Ok (Some k), s') ->
    exists key m,
      s' = ticks (S m) s /\ In (k, key) items /\
      expiry key < clock env (m + clock_reads s).
Proof.
  induction items as [|[k0 v] items IH]; intros s k s' H.
  - discriminate H.
  - cbn [next_expired] in H. unfold bind at 1, datetime_now at 1 in H.
    destruct (expiry v <? clock env (clock_reads s)) eqn:Hexp.
    + injection H as <- <-. exists v, 0%nat.
      split; [reflexivity|]. split; [left; reflexivity|].
      apply Z.ltb_lt, Hexp.
    + destruct (IH _ _ _ H) as [key [m [-> [Hin Hlt]]]].
      exists key, (S m). rewrite ticks_tick.
      split; [reflexivity|]. split; [right; exact Hin|].
      cbn [clock_reads tick ticks] in Hlt.
      replace (S m + clock_reads s)%nat
        with (m + (1 + clock_reads s))%nat by lia. exact Hlt.
Qed.

(** With a clock that never goes back, the key chosen on the [expired]
    path has expired when the choice is made. *)
Lemma auth_select_key_expired env s :
  env_ok env -> monotone env -> store_ok (keys s) ->
  exists kid entry s1,
    auth_select_key env true s = (Ok kid, s1) /\
    dict_get kid (keys s1) = Some entry /\
    expiry entry < clock env (clock_reads s1) /\
    store_ok (keys s1).
Proof.
  intros Henv Hmono Hok. rewrite auth_select_key_unfold.
  assert (Hgen : forall m, exists kid entry s1,
             generate_key env true (ticks m s) = (Ok kid, s1) /\
             dict_get kid (keys s1) = Some entry /\
             expiry entry < clock env (clock_reads s1) /\
             store_ok (keys s1)).
  { intro m.
    pose proof (generate_key_store_ok env true (ticks m s) Henv Hok) as Hok1.
    rewrite generate_key_run in Hok1 |- *. cbv zeta in Hok1 |- *.
    cbn [snd] in Hok1. eexists _, _, _. split; [reflexivity|].
    split; [cbn [keys with_keys]; apply dict_get_set_same|].
    split; [|exact Hok1].
    cbn [expiry clock_reads with_keys ticks uuid_drawn rsa_drawn].
    pose proof (Hmono (S (m + clock_reads s)) (2 + (m + clock_reads s))%nat
                      ltac:(lia)).
    unfold timedelta_minutes. lia. }
  destruct (next_expired_run env (keys s) s) as [r [m [Hrun _]]].
  rewrite Hrun. destruct r as [k|]; [|apply Hgen].
  destruct (String.eqb k EmptyString); [apply Hgen|].
  destruct (next_expired_found env _ _ _ _ Hrun) as [key [m' [Hs' [Hin Hlt]]]].
  exists k, key, (ticks m s). split; [reflexivity|].
  destruct Hok as [Hnd Hall].
  split; [apply in_dict_get_nodup; assumption|].
  split; [|split; assumption].
  rewrite Hs'. cbn [clock_reads ticks].
  pose proof (Hmono (m' + clock_reads s)%nat (S m' + clock_reads s)%nat
                    ltac:(lia)).
  lia.
Qed.

(** X12: the key of a token issued with the [expired] parameter is never
    served afterwards: with a clock that never goes back, the discovery
    request that follows removes the key named in the token header from the
    store and does not publish it. *)
Theorem expired_token_key_is_not_published env args s :
  env_ok env -> monotone env -> store_ok (keys s) ->
  dict_contains "expired" args = true ->
  exists resp s1 kid entry jwks s2,
    auth_endpoint env args s = (Ok resp, s1) /\
    issued_with env kid entry resp /\
    dict_get kid (keys s1) = Some entry /\
    jwks_endpoint env s1 =
    (Ok {| status := 200; body := JsonKeys jwks |}, s2) /\
    ~ In kid (map jwk_kid jwks) /\
    dict_contains kid (keys s2) = false.
Proof.
  intros Henv Hmono Hok Hargs.
  destruct (auth_select_key_expired env s Henv Hmono Hok)
    as [kid [entry [s1 [Hsel [Hget [Hexp Hok1]]]]]].
  rewrite auth_endpoint_unfold, Hargs, Hsel.
  rewrite (auth_issue_run env true kid entry s1 Hget). cbv zeta.
  set (s2 := ticks 3 s1).
  assert (Hexp2 : expiry entry < clock env (clock_reads s2)).
  { cbn [clock_reads s2 ticks].
    pose proof (Hmono (clock_reads s1) (3 + clock_reads s1)%nat ltac:(lia)).
    lia. }
  destruct (jwks_endpoint_purges env s2 kid entry Hok1 Hget Hexp2)
    as [jwks [s3 [Hrun [Hgone Hunpub]]]].
  eexists _, s2, kid, entry, jwks, s3. split; [reflexivity|].
  split; [eexists _, _; reflexivity|]. auto.
Qed.

Lemma expired_token_key_is_not_published_witness :
  env_ok env_second_boundary /\ monotone env_second_boundary /\
  store_ok (keys (state_of store_mixed)) /\
  dict_contains "expired" [("expired", "true")] = true /\
  exists resp s1 kid entry jwks s2,
    auth_endpoint env_second_boundary [("expired", "true")]
                  (state_of store_mixed) = (Ok resp, s1) /\
    issued_with env_second_boundary kid entry resp /\
    dict_get kid (keys s1) = Some entry /\
    jwks_endpoint env_second_boundary s1 =
    (Ok {| status := 200; body := JsonKeys jwks |}, s2) /\
    ~ In kid (map jwk_kid jwks) /\
    dict_contains kid (keys s2) = false.
Proof.
  pose proof (sample_env_ok (fun i => 999998 + Z.of_nat i)) as Henv.
  split; [exact Henv|]. split; [exact env_second_boundary_monotone|].
  split; [exact store_mixed_ok|]. split; [reflexivity|].
  exact (expired_token_key_is_not_published env_second_boundary
           [("expired", "true")] (state_of store_mixed) Henv
           env_second_boundary_monotone store_mixed_ok eq_refl).
Defined.

(** ** Repeated requests for an expired token *)

(** When a stored key has already expired and the clock never goes back, the
    search of the [expired] path finds a key and nothing is generated. *)
Lemma auth_select_key_reuses env s kid entry :
  monotone env -> store_ok (keys s) ->
  dict_get kid (keys s) = Some entry ->
  expiry entry < clock env (clock_reads s) ->
  exists k m, auth_select_key env true s = (Ok k, ticks m s) /\
              In k (dict_keys (keys s)).
Proof.
  intros Hmono [Hnd Hall] Hget Hexp. rewrite auth_select_key_unfold.
  destruct (next_expired_run env (keys s) s) as [r [m [Hrun [_ Hr]]]].
  rewrite Hrun. destruct r as [k|].
  - destruct Hr as [key [i [_ [Hin _]]]].
    assert (Hk : k <> EmptyString).
    { rewrite Forall_forall in Hall. apply (Hall (k, key) Hin). }
    destruct (String.eqb_spec k EmptyString); [contradiction|].
    exists k, m. split; [reflexivity|].
    unfold dict_keys. apply in_map_iff. exists (k, key). auto.
  - exfalso. destruct Hr as [_ Hr].
    destruct (In_nth_error _ _ (dict_get_in _ _ _ Hget)) as [i Hi].
    pose proof (Hr i _ Hi) as Hle. cbn [snd] in Hle.
    pose proof (Hmono (clock_reads s) (i + clock_reads s)%nat ltac:(lia)).
    lia.
Qed.

(** X13: requests for an expired token do not fill the store: with a clock
    that never goes back, a second request with the [expired] parameter
    reuses a stored key.  It leaves the store as the first request left it
    and generates neither a key nor an identifier. *)
Theorem repeated_expired_requests_reuse env args s :
  env_ok env -> monotone env -> store_ok (keys s) ->
  dict_contains "expired" args = true ->
  exists resp1 s1 resp2 s2,
    auth_endpoint env args s = (Ok resp1, s1) /\
    auth_endpoint env args s1 = (Ok resp2, s2) /\
    keys s2 = keys s1 /\
    rsa_draws s2 = rsa_draws s1 /\ uuid_draws s2 = uuid_draws s1 /\
    exists kid key, In (kid, key) (keys s1) /\ issued_with env kid key resp2.
Proof.
  intros Henv Hmono Hok Hargs.
  destruct (auth_select_key_expired env s Henv Hmono Hok)
    as [kid [entry [s0 [Hsel [Hget [Hexp Hok0]]]]]].
  pose proof (auth_endpoint_unfold env args s) as Hrun1.
  rewrite Hargs, Hsel in Hrun1.
  rewrite (auth_issue_run env true kid entry s0 Hget) in Hrun1.
  cbv zeta in Hrun1.
  set (s1 := ticks 3 s0) in *.
  assert (Hexp1 : expiry entry < clock env (clock_reads s1)).
  { cbn [clock_reads s1 ticks].
    pose proof (Hmono (clock_reads s0) (3 + clock_reads s0)%nat ltac:(lia)).
    lia. }
  destruct (auth_select_key_reuses env s1 kid entry Hmono Hok0 Hget Hexp1)
    as [k [m [Hsel1 Hk]]].
  unfold dict_keys in Hk. apply in_map_iff in Hk.
  destruct Hk as [[k' key] [Hfst Hin]]. cbn in Hfst. subst k'.
  assert (Hget1 : dict_get k (keys (ticks m s1)) = Some key).
  { destruct Hok0 as [Hnd0 _]. apply in_dict_get_nodup; assumption. }
  pose proof (auth_endpoint_unfold env args s1) as Hrun2.
  rewrite Hargs, Hsel1 in Hrun2.
  rewrite (auth_issue_run env true k key (ticks m s1) Hget1) in Hrun2.
  cbv zeta in Hrun2.
  eexists _, s1, _, _. split; [exact Hrun1|]. split; [exact Hrun2|].
  cbn [keys rsa_draws uuid_draws ticks]. repeat split.
  exists k, key. split; [exact Hin|]. eexists _, _. reflexivity.
Qed.

Lemma repeated_expired_requests_reuse_witness :
  env_ok env_second_boundary /\ monotone env_second_boundary /\
  store_ok (keys (state_of [])) /\
  dict_contains "expired" [("expired", "true")] = true /\
  exists resp1 s1 resp2 s2,
    auth_endpoint env_second_boundary [("expired", "true")] (state_of []) =
    (Ok resp1, s1) /\
    auth_endpoint env_second_boundary [("expired", "true")] s1 =
    (Ok resp2, s2) /\
    keys s2 = keys s1 /\
    rsa_draws s2 = rsa_draws s1 /\ uuid_draws s2 = uuid_draws s1 /\
    exists kid key,
      In (kid, key) (keys s1) /\
      issued_with env_second_boundary kid key resp2.
Proof.
  pose proof (sample_env_ok (fun i => 999998 + Z.of_nat i)) as Henv.
  split; [exact Henv|]. split; [exact env_second_boundary_monotone|].
  split; [exact store_ok_nil|]. split; [reflexivity|].
  exact (repeated_expired_requests_reuse env_second_boundary
           [("expired", "true")] (state_of []) Henv
           env_second_boundary_monotone store_ok_nil eq_refl).
Defined.

(** ** Any sequence of requests *)

(** X15: starting with the empty dictionary, after any sequence of requests
    the store has one entry per identifier, no empty identifier and
    positive public numbers, and a GET request to the discovery path is
    answered 200 with a key list: discovery never fails on a store that the
    application has built. *)
Theorem discovery_always_succeeds env reqs args :
  env_ok env ->
  store_ok (keys (snd (serve env reqs (state_of [])))) /\
  exists jwks,
    fst (dispatch env (request "GET" jwks_path args)
                  (snd (serve env reqs (state_of [])))) =
    {| status := 200; body := JsonKeys jwks |}.
Proof.
  intro Henv.
  pose proof (serve_store_ok env reqs (state_of []) Henv store_ok_nil) as Hok.
  split; [exact Hok|]. pose proof Hok as [Hnd _].
  destruct (jwks_endpoint_run env _ Hnd (store_ok_encodable _ _ Hok))
    as [jwks [Hrun _]].
  exists jwks. unfold request. rewrite dispatch_get_jwks, Hrun. reflexivity.
Qed.

Lemma discovery_always_succeeds_witness :
  env_ok env_second_boundary /\
  store_ok
    (keys (snd (serve env_second_boundary
                      [request "POST" auth_path [];
                       request "POST" auth_path [("expired", "true")];
                       request "GET" jwks_path []]
                      (state_of [])))) /\
  exists jwks,
    fst (dispatch env_second_boundary (request "GET" jwks_path [])
           (snd (serve env_second_boundary
                       [request "POST" auth_path [];
                        request "POST" auth_path [("expired", "true")];
                        request "GET" jwks_path []]
                       (state_of [])))) =
    {| status := 200; body := JsonKeys jwks |}.
Proof.
  pose proof (sample_env_ok (fun i => 999998 + Z.of_nat i)) as Henv.
  split; [exact Henv|].
  exact (discovery_always_succeeds env_second_boundary
           [request "POST" auth_path [];
            request "POST" auth_path [("expired", "true")];
            request "GET" jwks_path []] [] Henv).
Defined.
